(** * OrchestraAI dashboard client: the real-time state engine

    A shallow embedding of the client script of the dashboard (class
    [OrchestraAI], in the version that has the focus state machine and the
    markdown formatter): the message store, the column and timeline
    renderers, the focus state machine, the content formatter, the input
    controller and the connection manager, followed by the properties of
    the design document that concern them.

    Conventions of the model.
    - A JavaScript string is a [string]; its characters stand for code
      units below 256.
    - A plain object used as a map is a [gmap string V] of its own
      properties, read through [Js.get], which follows the prototype chain
      to [Object.prototype].
    - The page is a record of the elements the script touches.  The markup
      itself is not part of the script: every statement quantifies over the
      page.  A selector built from a role, [[data-role="r"]], is read as the
      test that the attribute equals [r].
    - Timers, the console and the traffic of the socket are lists kept in
      the state, so that what a handler schedules, prints or sends can be
      stated. *)

From Stdlib Require Import ZArith Ascii String List Permutation Sorted.
From stdpp Require Import gmap strings list fin_maps.

Local Open Scope string_scope.
Local Open Scope list_scope.

(* ===================================================================== *)
(** ** JavaScript values and strings *)
(* ===================================================================== *)

Module Js.

(** The numbers the counters hold: a count, or [NaN]. *)
Inductive number := num (n : nat) | NaN.

Global Instance number_eq_dec : EqDecision number.
Proof. solve_decision. Defined.

(** [v + 1] *)
Definition succ (v : number) : number :=
  match v with num n => num (S n) | NaN => NaN end.

(** The names every plain object inherits from [Object.prototype]. *)
Definition Object_prototype : list string :=
  [ "constructor"; "hasOwnProperty"; "isPrototypeOf"; "propertyIsEnumerable";
    "toLocaleString"; "toString"; "valueOf"; "__proto__";
    "__defineGetter__"; "__defineSetter__";
    "__lookupGetter__"; "__lookupSetter__" ].

(** The result of [o[k]] on a plain object: an own property, a member
    inherited from [Object.prototype] (a function, or the prototype object
    itself for [__proto__]), or [undefined]. *)
Inductive property (V : Type) :=
  | own (v : V)
  | inherited (name : string)
  | undefined.
Arguments own {V} v.
Arguments inherited {V} name.
Arguments undefined {V}.

Global Instance property_eq_dec {V} `{EqDecision V} : EqDecision (property V).
Proof. solve_decision. Defined.

(** [o[k]] *)
Definition get {V} (o : gmap string V) (k : string) : property V :=
  match o !! k with
  | Some v => own v
  | None => if bool_decide (k ∈ Object_prototype) then inherited k else undefined
  end.

(** [o[k] = v]: creates or overwrites the own property, except for
    [__proto__], whose setter discards a value that is not an object. *)
Definition set {V} (o : gmap string V) (k : string) (v : V) : gmap string V :=
  if bool_decide (k = "__proto__") then o else <[k := v]> o.

(** [ToNumber]: a function, an object and [undefined] all convert to [NaN]. *)
Definition ToNumber (p : property number) : number :=
  match p with own v => v | inherited _ => NaN | undefined => NaN end.

(** [o[k]++] *)
Definition postfix_increment (o : gmap string number) (k : string)
  : gmap string number :=
  set o k (succ (ToNumber (get o k))).

(** Truthiness of a string: every string but the empty one. *)
Definition truthy (s : string) : bool :=
  match s with EmptyString => false | String _ _ => true end.

(** White space and line terminators among the code units below 256:
    TAB, LF, VT, FF, CR, SPACE and NBSP.  This is the class [\s] of regular
    expressions and the set [trim] removes. *)
Definition is_space (c : ascii) : bool :=
  let n := nat_of_ascii c in
  (Nat.leb 9 n && Nat.leb n 13) || Nat.eqb n 32 || Nat.eqb n 160.

(** Line terminators: LF and CR. *)
Definition is_line_terminator (c : ascii) : bool :=
  let n := nat_of_ascii c in Nat.eqb n 10 || Nat.eqb n 13.

Definition is_digit (c : ascii) : bool :=
  let n := nat_of_ascii c in Nat.leb 48 n && Nat.leb n 57.

Fixpoint trimStart (s : string) : string :=
  match s with
  | EmptyString => EmptyString
  | String c s' => if is_space c then trimStart s' else s
  end.

(** Removes trailing white space: a character is kept when it is not a
    space or something survives after it. *)
Fixpoint trimEnd (s : string) : string :=
  match s with
  | EmptyString => EmptyString
  | String c s' =>
      match trimEnd s' with
      | EmptyString => if is_space c then EmptyString else String c EmptyString
      | t => String c t
      end
  end.

(** [s.trim()] *)
Definition trim (s : string) : string := trimEnd (trimStart s).

End Js.

(* ===================================================================== *)
(** ** Regular expressions *)
(* ===================================================================== *)

(** The fragment of regular expressions [containsMarkdown] uses, matched
    with derivatives.  [test] only asks whether some match exists, so a
    lazy quantifier ([.*?]) and its greedy form are the same expression. *)
Module RegExp.

Inductive class :=
  | lit (c : ascii)             (* the character itself *)
  | dot                         (* [.]: anything but a line terminator *)
  | space                       (* [\s] *)
  | digit                       (* [\d] *)
  | any                         (* [[\s\S]] *)
  | one_of (cs : list ascii).   (* [[...]] *)

Definition in_class (k : class) (c : ascii) : bool :=
  match k with
  | lit a => bool_decide (a = c)
  | dot => negb (Js.is_line_terminator c)
  | space => Js.is_space c
  | digit => Js.is_digit c
  | any => true
  | one_of cs => bool_decide (c ∈ cs)
  end.

Inductive regex :=
  | void                        (* matches nothing *)
  | eps                         (* the empty string *)
  | chr (k : class)
  | seq (r1 r2 : regex)
  | alt (r1 r2 : regex)
  | star (r : regex).

(** [r+] *)
Definition plus (r : regex) : regex := seq r (star r).

(** [r{0,n}] *)
Fixpoint upto (n : nat) (r : regex) : regex :=
  match n with
  | O => eps
  | S n' => alt eps (seq r (upto n' r))
  end.

(** A literal run of characters. *)
Fixpoint text (s : string) : regex :=
  match s with
  | EmptyString => eps
  | String c s' => seq (chr (lit c)) (text s')
  end.

Fixpoint nullable (r : regex) : bool :=
  match r with
  | void => false
  | eps => true
  | chr _ => false
  | seq r1 r2 => nullable r1 && nullable r2
  | alt r1 r2 => nullable r1 || nullable r2
  | star _ => true
  end.

Fixpoint deriv (c : ascii) (r : regex) : regex :=
  match r with
  | void => void
  | eps => void
  | chr k => if in_class k c then eps else void
  | seq r1 r2 =>
      if nullable r1 then alt (seq (deriv c r1) r2) (deriv c r2)
      else seq (deriv c r1) r2
  | alt r1 r2 => alt (deriv c r1) (deriv c r2)
  | star r1 => seq (deriv c r1) (star r1)
  end.

(** Some prefix of [s] matches [r]. *)
Fixpoint matches_prefix (r : regex) (s : string) : bool :=
  nullable r ||
  match s with
  | EmptyString => false
  | String c s' => matches_prefix (deriv c r) s'
  end.

(** A pattern: its body, and whether it opens with [^] under the flag [m]
    (the match must begin at the start of the input or right after a line
    terminator). *)
Record pattern := { line_start : bool; body : regex }.

(** A match of [p] begins here or further on; [at_start] tells whether the
    current position begins a line. *)
Fixpoint search (p : pattern) (at_start : bool) (s : string) : bool :=
  ((negb (line_start p) || at_start) && matches_prefix (body p) s) ||
  match s with
  | EmptyString => false
  | String c s' => search p (Js.is_line_terminator c) s'
  end.

(** [pattern.test(s)] *)
Definition test (p : pattern) (s : string) : bool := search p true s.

(** The position after [pre] begins a line, given whether the position
    before [pre] does. *)
Fixpoint at_line_start (before : bool) (pre : string) : bool :=
  match pre with
  | EmptyString => before
  | String c pre' => at_line_start (Js.is_line_terminator c) pre'
  end.

(** What it means for a whole string to match. *)
Inductive matches : regex → string → Prop :=
  | m_eps : matches eps ""
  | m_chr k c : in_class k c = true → matches (chr k) (String c "")
  | m_seq r1 r2 s1 s2 :
      matches r1 s1 → matches r2 s2 → matches (seq r1 r2) (s1 +:+ s2)
  | m_alt_l r1 r2 s : matches r1 s → matches (alt r1 r2) s
  | m_alt_r r1 r2 s : matches r2 s → matches (alt r1 r2) s
  | m_star_nil r : matches (star r) ""
  | m_star_cons r c s1 s2 :
      matches r (String c s1) → matches (star r) s2 →
      matches (star r) (String c s1 +:+ s2).

End RegExp.

(* ===================================================================== *)
(** ** Data model *)
(* ===================================================================== *)

(** A message as the backend sends it.  [timestamp] is the time value, in
    milliseconds, of [new Date(message.timestamp)]: the field is a point in
    time, and the script only ever reads it through [new Date]. *)
Record Message := {
  role : string;
  message_type : string;
  content : string;
  timestamp : Z;
}.

Global Instance Message_eq_dec : EqDecision Message.
Proof. solve_decision. Defined.

(** The keys of [messageCounts] in the constructor. *)
Definition known_roles : list string :=
  [ "human"; "ether"; "product_ai"; "architect_ai"; "interface_ai";
    "programmer_ai" ].

(** What an element shows: text set through [textContent], or markup set
    through [innerHTML]. *)
Inductive content_node :=
  | textContent (s : string)
  | innerHTML (html : string).

(** A string, or a member of [Object.prototype]. *)
Inductive value :=
  | str (s : string)
  | builtin (name : string).

(** The node [createMessageElement] builds. *)
Record message_element := {
  className : string;
  message_content : content_node;
  message_timestamp : string;
}.

(** The node [createTimelineMessageElement] builds. *)
Record timeline_element := {
  timeline_message_role : value;
  timeline_message_content : content_node;
  timeline_message_time : string;
}.

(** A column of the page, [<div class="column" data-role=r>]: its classes,
    the children of [#messages-r] and the value last written to the text of
    its [.message-count] badge. *)
Record column := {
  classList : gset string;
  messages_container : list message_element;
  message_count : Js.property Js.number;
}.

(** [.columns-container]: the class [has-active] and the two attributes. *)
Record columns_container := {
  has_active : bool;
  data_active : option string;
  data_dual_active : option string;
}.

Record controls := {
  send_btn_disabled : bool;
  interrupt_btn_disabled : bool;
  human_input_disabled : bool;
}.

(** [#connection-status]: its text and its class. *)
Record status := { status_text : string; status_class : string }.

(** The page. *)
Record document := {
  columns : gmap string column;
  container : columns_container;
  timeline_view_hidden : bool;
  timeline_messages : list timeline_element;
  buttons : controls;
  connection_status : status;
  human_input : string;
  interrupt_input : string;
  interrupt_modal_hidden : bool;
}.

(** The fields of the [OrchestraAI] instance.  [ws] numbers the sockets:
    it is the one opened last. *)
Record OrchestraAI := {
  ws : nat;
  messages : list Message;
  isConnected : bool;
  messageCounts : gmap string Js.number;
  userSelectedColumn : option string;
  lastMessageColumn : option string;
  isComposing : bool;
}.

(** The callbacks the script hands to [setTimeout]. *)
Inductive task :=
  | reconnect
  | remove_class (r : string) (c : string).

Record timer := { callback : task; delay : N }.

Inductive console_entry :=
  | console_log (s : string)
  | console_log_type (s : string) (type : option string)
  | console_error (s : string).

(** An envelope the client sends, before [JSON.stringify]. *)
Record outbound := { out_type : string; out_content : string }.

(** What the script leaves with the browser: pending timers, console
    output, frames sent, and how many sockets were ever constructed. *)
Record runtime := {
  timers : list timer;
  console : list console_entry;
  sent : list outbound;
  sockets : nat;
}.

Record world := { this : OrchestraAI; page : document; browser : runtime }.

(** The value [JSON.parse] yields for a frame, by the shape the handler
    tells apart.  An envelope whose [type] is one of the two known
    discriminators is built with its own constructor and carries messages
    of the data model; an envelope of a known type whose payload is
    missing or is not a message is outside the model.  [other] carries any
    other [type] ([None] when the value has no string there). *)
Inductive data :=
  | null
  | connection_established (history : option (list Message))
  | new_message (message : Message)
  | other (type : option string).

Inductive error := SyntaxError | TypeError.

(** How a handler ends: normally, or with an error that leaves it. *)
Inductive completion :=
  | normal (w : world)
  | throw (e : error) (w : world).

(** *** Field updates *)

Definition with_classList (f : gset string → gset string) (c : column) :=
  {| classList := f (classList c);
     messages_container := messages_container c;
     message_count := message_count c |}.

Definition with_messages_container
    (f : list message_element → list message_element) (c : column) :=
  {| classList := classList c;
     messages_container := f (messages_container c);
     message_count := message_count c |}.

Definition with_message_count (v : Js.property Js.number) (c : column) :=
  {| classList := classList c;
     messages_container := messages_container c;
     message_count := v |}.

Definition with_columns (f : gmap string column → gmap string column)
    (d : document) :=
  {| columns := f (columns d); container := container d;
     timeline_view_hidden := timeline_view_hidden d;
     timeline_messages := timeline_messages d; buttons := buttons d;
     connection_status := connection_status d; human_input := human_input d;
     interrupt_input := interrupt_input d;
     interrupt_modal_hidden := interrupt_modal_hidden d |}.

Definition with_container (c : columns_container) (d : document) :=
  {| columns := columns d; container := c;
     timeline_view_hidden := timeline_view_hidden d;
     timeline_messages := timeline_messages d; buttons := buttons d;
     connection_status := connection_status d; human_input := human_input d;
     interrupt_input := interrupt_input d;
     interrupt_modal_hidden := interrupt_modal_hidden d |}.

Definition with_timeline_view_hidden (b : bool) (d : document) :=
  {| columns := columns d; container := container d;
     timeline_view_hidden := b;
     timeline_messages := timeline_messages d; buttons := buttons d;
     connection_status := connection_status d; human_input := human_input d;
     interrupt_input := interrupt_input d;
     interrupt_modal_hidden := interrupt_modal_hidden d |}.

Definition with_timeline_messages (l : list timeline_element) (d : document) :=
  {| columns := columns d; container := container d;
     timeline_view_hidden := timeline_view_hidden d;
     timeline_messages := l; buttons := buttons d;
     connection_status := connection_status d; human_input := human_input d;
     interrupt_input := interrupt_input d;
     interrupt_modal_hidden := interrupt_modal_hidden d |}.

Definition with_buttons (b : controls) (d : document) :=
  {| columns := columns d; container := container d;
     timeline_view_hidden := timeline_view_hidden d;
     timeline_messages := timeline_messages d; buttons := b;
     connection_status := connection_status d; human_input := human_input d;
     interrupt_input := interrupt_input d;
     interrupt_modal_hidden := interrupt_modal_hidden d |}.

Definition with_connection_status (s : status) (d : document) :=
  {| columns := columns d; container := container d;
     timeline_view_hidden := timeline_view_hidden d;
     timeline_messages := timeline_messages d; buttons := buttons d;
     connection_status := s; human_input := human_input d;
     interrupt_input := interrupt_input d;
     interrupt_modal_hidden := interrupt_modal_hidden d |}.

Definition with_human_input (s : string) (d : document) :=
  {| columns := columns d; container := container d;
     timeline_view_hidden := timeline_view_hidden d;
     timeline_messages := timeline_messages d; buttons := buttons d;
     connection_status := connection_status d; human_input := s;
     interrupt_input := interrupt_input d;
     interrupt_modal_hidden := interrupt_modal_hidden d |}.

Definition with_interrupt_input (s : string) (d : document) :=
  {| columns := columns d; container := container d;
     timeline_view_hidden := timeline_view_hidden d;
     timeline_messages := timeline_messages d; buttons := buttons d;
     connection_status := connection_status d; human_input := human_input d;
     interrupt_input := s;
     interrupt_modal_hidden := interrupt_modal_hidden d |}.

Definition with_interrupt_modal_hidden (b : bool) (d : document) :=
  {| columns := columns d; container := container d;
     timeline_view_hidden := timeline_view_hidden d;
     timeline_messages := timeline_messages d; buttons := buttons d;
     connection_status := connection_status d; human_input := human_input d;
     interrupt_input := interrupt_input d;
     interrupt_modal_hidden := b |}.

Definition with_ws (n : nat) (o : OrchestraAI) :=
  {| ws := n; messages := messages o; isConnected := isConnected o;
     messageCounts := messageCounts o;
     userSelectedColumn := userSelectedColumn o;
     lastMessageColumn := lastMessageColumn o; isComposing := isComposing o |}.

Definition with_messages (l : list Message) (o : OrchestraAI) :=
  {| ws := ws o; messages := l; isConnected := isConnected o;
     messageCounts := messageCounts o;
     userSelectedColumn := userSelectedColumn o;
     lastMessageColumn := lastMessageColumn o; isComposing := isComposing o |}.

Definition with_isConnected (b : bool) (o : OrchestraAI) :=
  {| ws := ws o; messages := messages o; isConnected := b;
     messageCounts := messageCounts o;
     userSelectedColumn := userSelectedColumn o;
     lastMessageColumn := lastMessageColumn o; isComposing := isComposing o |}.

Definition with_messageCounts (c : gmap string Js.number) (o : OrchestraAI) :=
  {| ws := ws o; messages := messages o; isConnected := isConnected o;
     messageCounts := c;
     userSelectedColumn := userSelectedColumn o;
     lastMessageColumn := lastMessageColumn o; isComposing := isComposing o |}.

Definition with_userSelectedColumn (r : option string) (o : OrchestraAI) :=
  {| ws := ws o; messages := messages o; isConnected := isConnected o;
     messageCounts := messageCounts o;
     userSelectedColumn := r;
     lastMessageColumn := lastMessageColumn o; isComposing := isComposing o |}.

Definition with_lastMessageColumn (r : option string) (o : OrchestraAI) :=
  {| ws := ws o; messages := messages o; isConnected := isConnected o;
     messageCounts := messageCounts o;
     userSelectedColumn := userSelectedColumn o;
     lastMessageColumn := r; isComposing := isComposing o |}.

Definition with_timers (f : list timer → list timer) (b : runtime) :=
  {| timers := f (timers b); console := console b; sent := sent b;
     sockets := sockets b |}.

Definition with_console (f : list console_entry → list console_entry)
    (b : runtime) :=
  {| timers := timers b; console := f (console b); sent := sent b;
     sockets := sockets b |}.

Definition with_sent (f : list outbound → list outbound) (b : runtime) :=
  {| timers := timers b; console := console b; sent := f (sent b);
     sockets := sockets b |}.

Definition with_sockets (n : nat) (b : runtime) :=
  {| timers := timers b; console := console b; sent := sent b;
     sockets := n |}.

Definition on_this (f : OrchestraAI → OrchestraAI) (w : world) :=
  {| this := f (this w); page := page w; browser := browser w |}.

Definition on_page (f : document → document) (w : world) :=
  {| this := this w; page := f (page w); browser := browser w |}.

Definition on_browser (f : runtime → runtime) (w : world) :=
  {| this := this w; page := page w; browser := f (browser w) |}.

(** [setTimeout(cb, ms)] *)
Definition setTimeout (cb : task) (ms : N) : world → world :=
  on_browser (with_timers (λ l, l ++ [ {| callback := cb; delay := ms |} ])).

(** [console.log(...)] and [console.error(...)] *)
Definition print (e : console_entry) : world → world :=
  on_browser (with_console (λ l, l ++ [e])).

(** [document.querySelector('[data-role="r"]')], then a change of the
    element when it exists.  The column with that role also holds
    [#messages-r] and the badge [.message-count]. *)
Definition on_column (r : string) (f : column → column) : world → world :=
  on_page (with_columns (alter f r)).

(* ===================================================================== *)
(** ** The script *)
(* ===================================================================== *)

(** [Array.prototype.sort(comparefn)]: the sort is stable, and an element
    moves behind another only when [comparefn] is positive on the pair. *)
Section Sort.
Context {A : Type} (comparefn : A → A → Z).

Fixpoint insert_sorted (x : A) (l : list A) : list A :=
  match l with
  | [] => [x]
  | y :: l' =>
      if (0 <? comparefn x y)%Z then y :: insert_sorted x l'
      else x :: y :: l'
  end.

Fixpoint sort (l : list A) : list A :=
  match l with
  | [] => []
  | x :: l' => insert_sorted x (sort l')
  end.
End Sort.

(** [s.replace(/>\s+</g, '><')].  [pending] holds the white space read
    after a [>] that is not written yet. *)
Fixpoint replace_gaps (pending : option string) (s : string) : string :=
  match s with
  | EmptyString =>
      match pending with Some ws => String ">" ws | None => EmptyString end
  | String c s' =>
      match pending with
      | None =>
          if bool_decide (c = ">"%char) then replace_gaps (Some "") s'
          else String c (replace_gaps None s')
      | Some ws =>
          if Js.is_space c then replace_gaps (Some (ws +:+ String c "")) s'
          else if bool_decide (c = "<"%char) then
            String ">" (String "<" (replace_gaps None s'))
          else if bool_decide (c = ">"%char) then
            String ">" ws +:+ replace_gaps (Some "") s'
          else String ">" ws +:+ String c (replace_gaps None s')
      end
  end.

Import RegExp.

(** The list [markdownPatterns] of [containsMarkdown], in its order. *)
Definition markdownPatterns : list pattern :=
  [ (* /^#{1,6}\s/m *)
    {| line_start := true;
       body := seq (chr (lit "#")) (seq (upto 5 (chr (lit "#"))) (chr space)) |};
    (* /\*\*.*?\*\*/ *)
    {| line_start := false;
       body := seq (text "**") (seq (star (chr dot)) (text "**")) |};
    (* /\*.*?\*/ *)
    {| line_start := false;
       body := seq (chr (lit "*")) (seq (star (chr dot)) (chr (lit "*"))) |};
    (* /`.*?`/ *)
    {| line_start := false;
       body := seq (chr (lit "`")) (seq (star (chr dot)) (chr (lit "`"))) |};
    (* /```[\s\S]*?```/ *)
    {| line_start := false;
       body := seq (text "```") (seq (star (chr any)) (text "```")) |};
    (* /^\s*[-*+]\s/m *)
    {| line_start := true;
       body := seq (star (chr space))
                 (seq (chr (one_of ["-"; "*"; "+"]%char)) (chr space)) |};
    (* /^\s*\d+\.\s/m *)
    {| line_start := true;
       body := seq (star (chr space))
                 (seq (plus (chr digit)) (seq (chr (lit ".")) (chr space))) |};
    (* /\[.*?\]\(.*?\)/ *)
    {| line_start := false;
       body := seq (chr (lit "["))
                 (seq (star (chr dot))
                    (seq (text "](") (seq (star (chr dot)) (chr (lit ")"))))) |};
    (* /^\s*>\s/m *)
    {| line_start := true;
       body := seq (star (chr space)) (seq (chr (lit ">")) (chr space)) |};
    (* /^\s*\|.*\|/m *)
    {| line_start := true;
       body := seq (star (chr space))
                 (seq (chr (lit "|")) (seq (star (chr dot)) (chr (lit "|")))) |};
    (* /---+/ *)
    {| line_start := false; body := seq (text "--") (plus (chr (lit "-"))) |} ].

(** [markdownPatterns.some(pattern => pattern.test(text))] *)
Definition containsMarkdown (text : string) : bool :=
  existsb (λ pattern, test pattern text) markdownPatterns.

(** The table [roleNames] of [getRoleDisplayName]. *)
Definition roleNames : gmap string string :=
  list_to_map
    [ ("human", "👤 人类"); ("ether", "⚡ 以太"); ("product_ai", "🎯 产品AI");
      ("architect_ai", "🏗️ 架构AI"); ("interface_ai", "🔌 接口AI");
      ("programmer_ai", "💻 程序员AI") ].

(** [roleNames[role] || role] *)
Definition getRoleDisplayName (role : string) : value :=
  match Js.get roleNames role with
  | Js.own name => if Js.truthy name then str name else str role
  | Js.inherited member => builtin member
  | Js.undefined => str role
  end.

(** The three classes [updateColumnLayout] manages. *)
Definition emphasis_classes : list string :=
  [ "active"; "user-selected"; "message-active" ].

(** [if (x)] on a field that holds [null] or a string. *)
Definition truthy_column (c : option string) : bool :=
  match c with Some r => Js.truthy r | None => false end.

(** The local [activeColumns] of [updateColumnLayout]. *)
Definition activeColumns (o : OrchestraAI) : list string :=
  let selected :=
    match userSelectedColumn o with
    | Some r => if Js.truthy r then [r] else []
    | None => []
    end in
  match lastMessageColumn o with
  | Some r =>
      if Js.truthy r && bool_decide (lastMessageColumn o ≠ userSelectedColumn o)
      then selected ++ [r] else selected
  | None => selected
  end.

(** [classList.add(...)] and [classList.remove(...)] *)
Definition add_classes (cs : list string) : column → column :=
  with_classList (λ X, X ∪ list_to_set cs).
Definition remove_classes (cs : list string) : column → column :=
  with_classList (λ X, X ∖ list_to_set cs).

(** The first statement of the layout: every [.column] loses the three
    classes. *)
Definition clear_emphasis : world → world :=
  on_page (with_columns (fmap (remove_classes emphasis_classes))).

(** The rest of [updateColumnLayout]: the container's mode, then the
    classes of the selected and of the last active column. *)
Definition apply_emphasis (w : world) : world :=
  let active := activeColumns (this w) in
  let c := container (page w) in
  if (0 <? length active)%nat then
    let c1 :=
      match active with
      | [a] =>
          {| has_active := true; data_active := Some a;
             data_dual_active := None |}
      | [a; b] =>
          {| has_active := true; data_active := None;
             data_dual_active := Some (a +:+ "-" +:+ b) |}
      | _ =>
          {| has_active := true; data_active := data_active c;
             data_dual_active := data_dual_active c |}
      end in
    let w1 := on_page (with_container c1) w in
    let w2 :=
      match userSelectedColumn (this w) with
      | Some r =>
          if Js.truthy r
          then on_column r (add_classes ["active"; "user-selected"]) w1
          else w1
      | None => w1
      end in
    match lastMessageColumn (this w) with
    | Some r =>
        if Js.truthy r
        then on_column r (add_classes ["active"; "message-active"]) w2
        else w2
    | None => w2
    end
  else
    on_page
      (with_container
         {| has_active := false; data_active := None;
            data_dual_active := None |}) w.

Definition updateColumnLayout (w : world) : world :=
  apply_emphasis (clear_emphasis w).

Definition setUserSelectedColumn (role : string) (w : world) : world :=
  let w1 := on_this (with_userSelectedColumn (Some role)) w in
  let w2 := updateColumnLayout w1 in
  on_column role (add_classes ["user-selected"]) w2.

Definition setLastMessageColumn (role : string) (w : world) : world :=
  let w1 := on_this (with_lastMessageColumn (Some role)) w in
  let w2 := updateColumnLayout w1 in
  match columns (page w2) !! role with
  | Some _ =>
      setTimeout (remove_class role "recently-active") 2000
        (on_column role (add_classes ["recently-active"]) w2)
  | None => w2
  end.

Definition updateConnectionStatus (w : world) : world :=
  if isConnected (this w) then
    on_page
      (with_connection_status
         {| status_text := "已连接"; status_class := "status connected" |}) w
  else
    on_page
      (with_connection_status
         {| status_text := "断开连接";
            status_class := "status disconnected" |}) w.

Definition enableControls : world → world :=
  on_page
    (with_buttons
       {| send_btn_disabled := false; interrupt_btn_disabled := false;
          human_input_disabled := false |}).

Definition disableControls : world → world :=
  on_page
    (with_buttons
       {| send_btn_disabled := true; interrupt_btn_disabled := true;
          human_input_disabled := true |}).

Definition updateMessageCount (role : string) (w : world) : world :=
  on_column role
    (with_message_count (Js.get (messageCounts (this w)) role)) w.

Definition hideInterruptModal (w : world) : world :=
  on_page (with_interrupt_input "")
    (on_page (with_interrupt_modal_hidden true) w).

Definition showInterruptModal : world → world :=
  on_page (with_interrupt_modal_hidden false).

(** [this.ws.send(JSON.stringify(envelope))] *)
Definition ws_send (e : outbound) : world → world :=
  on_browser (with_sent (λ l, l ++ [e])).

Definition sendHumanInput (w : world) : world :=
  let content := Js.trim (human_input (page w)) in
  if negb (Js.truthy content) || negb (isConnected (this w)) then w
  else
    let w1 :=
      ws_send {| out_type := "human_input"; out_content := content |} w in
    on_page (with_human_input "") w1.

Definition confirmInterrupt (w : world) : world :=
  let content := Js.trim (interrupt_input (page w)) in
  if negb (Js.truthy content) || negb (isConnected (this w)) then w
  else
    let w1 :=
      ws_send {| out_type := "interrupt"; out_content := content |} w in
    hideInterruptModal w1.

Definition hideTimelineView : world → world :=
  on_page (with_timeline_view_hidden true).

(** The audio context lives outside the state, and the function catches
    what it throws. *)
Definition playNotificationSound (w : world) : world := w.

(** The functions the script takes from its environment: the markdown
    converter [marked.parse], the clock format of [toLocaleTimeString] and
    [JSON.parse], which yields no value when it throws [SyntaxError]. *)
Section Script.
Variable marked_parse : string → string.
Variable toLocaleTimeString : Z → string.
Variable JSON_parse : string → option data.

Definition formatTimestamp (timestamp : Z) : string :=
  toLocaleTimeString timestamp.

Definition createMessageElement (messageData : Message) : message_element :=
  let contentDiv :=
    if bool_decide (role messageData ≠ "human")
       && containsMarkdown (content messageData)
    then
      let parsedContent := marked_parse (content messageData) in
      innerHTML (Js.trim (replace_gaps None parsedContent))
    else textContent (content messageData) in
  {| className := "message " +:+ message_type messageData;
     message_content := contentDiv;
     message_timestamp := formatTimestamp (timestamp messageData) |}.

Definition renderMessageInColumn (messageData : Message) (w : world)
  : world :=
  match columns (page w) !! role messageData with
  | None => w
  | Some _ =>
      let messageElement := createMessageElement messageData in
      let w1 :=
        on_column (role messageData)
          (with_messages_container (λ l, l ++ [messageElement])) w in
      let w2 :=
        on_column (role messageData) (add_classes ["new-message"]) w1 in
      setTimeout (remove_class (role messageData) "new-message") 1000 w2
  end.

Definition createTimelineMessageElement (messageData : Message)
  : timeline_element :=
  let contentDiv :=
    if bool_decide (role messageData ≠ "human")
       && containsMarkdown (content messageData)
    then
      let parsedContent := marked_parse (content messageData) in
      innerHTML (Js.trim (replace_gaps None parsedContent))
    else textContent (content messageData) in
  {| timeline_message_role := getRoleDisplayName (role messageData);
     timeline_message_content := contentDiv;
     timeline_message_time := formatTimestamp (timestamp messageData) |}.

(** [[...this.messages].sort((a, b) => new Date(a.timestamp) - new
    Date(b.timestamp))] *)
Definition sortedMessages (l : list Message) : list Message :=
  sort (λ a b, timestamp a - timestamp b)%Z l.

Definition renderTimelineView (w : world) : world :=
  on_page
    (with_timeline_messages
       (createTimelineMessageElement <$> sortedMessages (messages (this w))))
    w.

Definition toggleTimelineView (w : world) : world :=
  if timeline_view_hidden (page w) then
    renderTimelineView (on_page (with_timeline_view_hidden false) w)
  else on_page (with_timeline_view_hidden true) w.

Definition addMessage (messageData : Message) (w : world) : world :=
  let w1 :=
    on_this (λ o, with_messages (messages o ++ [messageData]) o) w in
  let w2 :=
    on_this
      (λ o, with_messageCounts
              (Js.postfix_increment (messageCounts o) (role messageData)) o)
      w1 in
  let w3 := renderMessageInColumn messageData w2 in
  let w4 := updateMessageCount (role messageData) w3 in
  let w5 := setLastMessageColumn (role messageData) w4 in
  let w6 :=
    if negb (timeline_view_hidden (page w5)) then renderTimelineView w5
    else w5 in
  playNotificationSound w6.

(** [array.forEach(msg => this.addMessage(msg))] *)
Definition forEach_addMessage (l : list Message) (w : world) : world :=
  foldl (λ w' msg, addMessage msg w') w l.

Definition handleWebSocketMessage (d : data) (w : world) : completion :=
  match d with
  | null => throw TypeError w
  | connection_established history =>
      match history with
      | Some l =>
          if (0 <? length l)%nat then normal (forEach_addMessage l w)
          else normal w
      | None => normal w
      end
  | new_message message => normal (addMessage message w)
  | other type => normal (print (console_log_type "未知消息类型:" type) w)
  end.

Definition setupWebSocket (w : world) : world :=
  let n := S (sockets (browser w)) in
  on_this (with_ws n) (on_browser (with_sockets n) w).

Definition ws_onopen (w : world) : world :=
  let w1 := print (console_log "WebSocket连接已建立") w in
  let w2 := on_this (with_isConnected true) w1 in
  enableControls (updateConnectionStatus w2).

Definition ws_onmessage (event_data : string) (w : world) : completion :=
  match JSON_parse event_data with
  | None => throw SyntaxError w
  | Some d => handleWebSocketMessage d w
  end.

Definition ws_onclose (w : world) : world :=
  let w1 := print (console_log "WebSocket连接已关闭") w in
  let w2 := on_this (with_isConnected false) w1 in
  let w3 := disableControls (updateConnectionStatus w2) in
  setTimeout reconnect 3000 w3.

Definition ws_onerror : world → world :=
  print (console_error "WebSocket错误:").

(** The body of a timer callback. *)
Definition run (t : task) (w : world) : world :=
  match t with
  | reconnect => setupWebSocket (print (console_log "尝试重新连接...") w)
  | remove_class r c => on_column r (remove_classes [c]) w
  end.

(** The [i]-th pending timer fires. *)
Definition fire (i : nat) (w : world) : world :=
  match timers (browser w) !! i with
  | Some t => run (callback t) (on_browser (with_timers (delete i)) w)
  | None => w
  end.

(** The click listener of a column. *)
Definition column_click (r : string) (w : world) : world :=
  match columns (page w) !! r with
  | Some _ => if Js.truthy r then setUserSelectedColumn r w else w
  | None => w
  end.

(** The [keydown] listener of the input box. *)
Definition human_input_keydown (key : string) (shiftKey : bool) (w : world)
  : world :=
  if bool_decide (key = "Enter") then
    if isComposing (this w) then
      if shiftKey then sendHumanInput w else w
    else
      if negb shiftKey then sendHumanInput w else w
  else w.

Definition setupUI (w : world) : world :=
  disableControls (updateConnectionStatus w).

(** [new OrchestraAI()] on a page. *)
Definition constructor (d : document) : world :=
  let o :=
    {| ws := 0; messages := []; isConnected := false;
       messageCounts :=
         list_to_map
           [ ("human", Js.num 0); ("ether", Js.num 0);
             ("product_ai", Js.num 0); ("architect_ai", Js.num 0);
             ("interface_ai", Js.num 0); ("programmer_ai", Js.num 0) ];
       userSelectedColumn := None; lastMessageColumn := None;
       isComposing := false |} in
  let w :=
    {| this := o; page := d;
       browser := {| timers := []; console := []; sent := []; sockets := 0 |}
    |} in
  setupUI (setupWebSocket w).

End Script.

(* ===================================================================== *)
(** ** Vocabulary of the properties *)
(* ===================================================================== *)



(** The state a handler leaves, however it ends. *)
Definition world_of (c : completion) : world :=
  match c with normal w => w | throw _ w => w end.


(** The mode of the container for a list of active columns: none, one
    column, or an ordered pair. *)
Definition layout_mode (active : list string) (c : columns_container)
  : columns_container :=
  match active with
  | [] =>
      {| has_active := false; data_active := None; data_dual_active := None |}
  | [a] =>
      {| has_active := true; data_active := Some a; data_dual_active := None |}
  | [a; b] =>
      {| has_active := true; data_active := None;
         data_dual_active := Some (a +:+ "-" +:+ b) |}
  | _ =>
      {| has_active := true; data_active := data_active c;
         data_dual_active := data_dual_active c |}
  end.

(** The classes the layout adds to the column a slot names, when the slot
    holds a truthy role. *)
Definition mark (slot : option string) (cs : list string)
    (cols : gmap string column) : gmap string column :=
  match slot with
  | Some r => if Js.truthy r then alter (add_classes cs) r cols else cols
  | None => cols
  end.

(** What a column shows apart from its classes: the messages and the
    badge. *)
Definition column_view (c : column)
  : list message_element * Js.property Js.number :=
  (messages_container c, message_count c).

(** The page outside the columns and their container. *)
Definition page_rest (d : document) :=
  (timeline_view_hidden d, timeline_messages d, buttons d,
   connection_status d, human_input d, interrupt_input d,
   interrupt_modal_hidden d).

(** What the browser holds apart from the pending timers. *)
Definition browser_rest (b : runtime) := (console b, sent b, sockets b).

(** The store and what the page shows of it: the whole state but the
    classes of the columns and the pending timers. *)
Definition views (w : world) :=
  (this w, column_view <$> columns (page w), container (page w),
   page_rest (page w), browser_rest (browser w)).

Section Scenarios.
Variable marked_parse : string → string.
Variable toLocaleTimeString : Z → string.


(** Messages that arrive live, each in its own event, while timers that
    take a transient class off a column fire in between. *)
Inductive live : list Message → world → world → Prop :=
  | live_done w : live [] w w
  | live_message m l w w' :
      live l (addMessage marked_parse toLocaleTimeString m w) w' →
      live (m :: l) w w'
  | live_timer i r c d l w w' :
      timers (browser w) !! i
      = Some {| callback := remove_class r c; delay := d |} →
      live l (fire i w) w' → live l w w'.

(** The channel is lost, and the reconnect that loss scheduled fires. *)
Definition lose_and_retry (w : world) : world :=
  fire (length (timers (browser w))) (ws_onclose w).
End Scenarios.

(** *** Sample data *)

(** A page with the six columns, all empty, and the timeline closed. *)
Definition sample_column : column :=
  {| classList := ∅; messages_container := []; message_count := Js.own (Js.num 0) |}.

Definition sample_page : document :=
  {| columns := list_to_map ((λ r, (r, sample_column)) <$> known_roles);
     container :=
       {| has_active := false; data_active := None;
          data_dual_active := None |};
     timeline_view_hidden := true;
     timeline_messages := [];
     buttons :=
       {| send_btn_disabled := false; interrupt_btn_disabled := false;
          human_input_disabled := false |};
     connection_status := {| status_text := ""; status_class := "status" |};
     human_input := "";
     interrupt_input := "";
     interrupt_modal_hidden := true |}.

(** A converter and a clock that stand in for the library's and the
    browser's in the examples. *)
Definition sample_marked (s : string) : string := "<p>" +:+ s +:+ "</p>".
Definition sample_clock (t : Z) : string := "00:00:00".

Definition sample_message (r c : string) (t : Z) : Message :=
  {| role := r; message_type := "normal"; content := c; timestamp := t |}.

(** What [JSON.parse] does on three frames: it throws on the first, which
    is not JSON, and reads the other two. *)
Definition quoted (s : string) : string :=
  String "034" (s +:+ String "034" EmptyString).

Definition ping_frame : string :=
  "{" +:+ quoted "type" +:+ ":" +:+ quoted "ping" +:+ "}".

Definition sample_parse (frame : string) : option data :=
  if bool_decide (frame = "{oops") then None
  else if bool_decide (frame = ping_frame) then Some (other (Some "ping"))
  else if bool_decide (frame = "null") then Some null
  else None.

Definition sample_world : world := constructor sample_page.

(* ===================================================================== *)
(** ** The listeners and the event loop *)
(* ===================================================================== *)

Definition with_isComposing (b : bool) (o : OrchestraAI) :=
  {| ws := ws o; messages := messages o; isConnected := isConnected o;
     messageCounts := messageCounts o;
     userSelectedColumn := userSelectedColumn o;
     lastMessageColumn := lastMessageColumn o; isComposing := b |}.

Global Instance task_eq_dec : EqDecision task.
Proof. solve_decision. Defined.

(** A hint under the input box: its text and its colour. *)
Record hint := { hint_text : string; hint_color : string }.

(** [.input-container]: the elements of class [input-hint] in it, in
    document order, and the label of the send button. *)
Record input_box := { hints : list hint; send_btn_text : string }.

(** [updateInputHint]: the first hint found is removed, and a hint for the
    composition state is appended. *)
Definition updateInputHint (composing : bool) (b : input_box) : input_box :=
  let remaining := match hints b with [] => [] | _ :: rest => rest end in
  if composing then
    {| hints :=
         remaining
         ++ [ {| hint_text := "输入法组合中... (Shift+Enter 发送)";
                 hint_color := "#f59e0b" |} ];
       send_btn_text := "Shift+Enter 发送" |}
  else
    {| hints :=
         remaining
         ++ [ {| hint_text := "Enter 发送, Shift+Enter 换行";
                 hint_color := "#666" |} ];
       send_btn_text := "发送 (Enter)" |}.

(** The instance with its page and browser, and the input container. *)
Record session := { app : world; input_container : input_box }.

(** What can happen to the page: the events of the socket, a timer that
    fires, the events the listeners of [setupEventListeners] wait for, and
    the user's edits of the two text fields. *)
Inductive event :=
  | socket_open
  | socket_message (event_data : string)
  | socket_close
  | socket_error
  | timer_fires (i : nat)
  | send_btn_click
  | compositionstart
  | compositionend
  | keydown (key : string) (shiftKey : bool)
  | interrupt_btn_click
  | interrupt_confirm_click
  | interrupt_cancel_click
  | interrupt_modal_click (on_backdrop : bool)
  | timeline_toggle_click
  | timeline_close_click
  | timeline_view_click (on_backdrop : bool)
  | column_clicked (r : string)
  | human_input_edited (value : string)
  | interrupt_input_edited (value : string).

Section EventLoop.
Variable marked_parse : string → string.
Variable toLocaleTimeString : Z → string.
Variable JSON_parse : string → option data.

(** The handler of each event. *)
Definition react (e : event) (w : world) : world :=
  match e with
  | socket_open => ws_onopen w
  | socket_message event_data =>
      world_of (ws_onmessage marked_parse toLocaleTimeString JSON_parse
                  event_data w)
  | socket_close => ws_onclose w
  | socket_error => ws_onerror w
  | timer_fires i => fire i w
  | send_btn_click => sendHumanInput w
  | compositionstart => on_this (with_isComposing true) w
  | compositionend => on_this (with_isComposing false) w
  | keydown key shiftKey => human_input_keydown key shiftKey w
  | interrupt_btn_click => showInterruptModal w
  | interrupt_confirm_click => confirmInterrupt w
  | interrupt_cancel_click => hideInterruptModal w
  | interrupt_modal_click on_backdrop =>
      if on_backdrop then hideInterruptModal w else w
  | timeline_toggle_click =>
      toggleTimelineView marked_parse toLocaleTimeString w
  | timeline_close_click => hideTimelineView w
  | timeline_view_click on_backdrop =>
      if on_backdrop then hideTimelineView w else w
  | column_clicked r => column_click r w
  | human_input_edited value => on_page (with_human_input value) w
  | interrupt_input_edited value => on_page (with_interrupt_input value) w
  end.

Definition dispatch (e : event) (s : session) : session :=
  {| app := react e (app s);
     input_container :=
       match e with
       | compositionstart => updateInputHint true (input_container s)
       | compositionend => updateInputHint false (input_container s)
       | _ => input_container s
       end |}.

(** The page is loaded: the constructor runs, and [setupUI] writes the
    first hint. *)
Definition boot (d : document) (b : input_box) : session :=
  {| app := constructor d; input_container := updateInputHint false b |}.

(** The session after a list of events. *)
Definition session_after (d : document) (b : input_box) (es : list event)
  : session :=
  foldl (λ s e, dispatch e s) (boot d b) es.

End EventLoop.

(** *** Vocabulary of the invariants *)

(** The three controls and the status line say what the liveness flag
    says. *)
Definition controls_follow_connection (w : world) : Prop :=
  buttons (page w)
  = {| send_btn_disabled := negb (isConnected (this w));
       interrupt_btn_disabled := negb (isConnected (this w));
       human_input_disabled := negb (isConnected (this w)) |} ∧
  connection_status (page w)
  = (if isConnected (this w)
     then {| status_text := "已连接"; status_class := "status connected" |}
     else {| status_text := "断开连接";
             status_class := "status disconnected" |}).


(** How many reconnects are pending. *)
Definition pending_reconnects (w : world) : nat :=
  length (filter (λ t, callback t = reconnect) (timers (browser w))).

Global Instance event_eq_dec : EqDecision event.
Proof. solve_decision. Defined.

(** How many times the channel was lost in a list of events. *)
Definition losses (es : list event) : nat :=
  length (filter (λ e, e = socket_close) es).

(** One of the characters some pattern of [markdownPatterns] needs. *)
Definition markdown_markers : list ascii :=
  ["#"; "*"; "`"; "-"; "+"; "."; "["; ">"; "|"]%char.

(** Some character of [cs] occurs in [s]. *)
Fixpoint contains_char (cs : list ascii) (s : string) : bool :=
  match s with
  | EmptyString => false
  | String c s' => bool_decide (c ∈ cs) || contains_char cs s'
  end.

(** Every character of the class is in [cs]. *)
Definition class_within (cs : list ascii) (k : RegExp.class) : bool :=
  match k with
  | RegExp.lit a => bool_decide (a ∈ cs)
  | RegExp.one_of l => forallb (λ a, bool_decide (a ∈ cs)) l
  | _ => false
  end.

(** A sufficient test that every match of [r] holds a character of [cs]. *)
Fixpoint needs_char (cs : list ascii) (r : RegExp.regex) : bool :=
  match r with
  | RegExp.void => true
  | RegExp.eps => false
  | RegExp.chr k => class_within cs k
  | RegExp.seq r1 r2 => needs_char cs r1 || needs_char cs r2
  | RegExp.alt r1 r2 => needs_char cs r1 && needs_char cs r2
  | RegExp.star _ => false
  end.

(** No character of the string ends a line. *)
Fixpoint single_line (s : string) : bool :=
  match s with
  | EmptyString => true
  | String c s' => negb (Js.is_line_terminator c) && single_line s'
  end.





(** Every character of the string is white space. *)
Fixpoint all_space (s : string) : bool :=
  match s with
  | EmptyString => true
  | String c s' => Js.is_space c && all_space s'
  end.

(** A recogniser of [/>\s+</]: where the scan stands after the characters
    read so far. *)
Inductive gap_state :=
  | gap_none          (* not after a [>] *)
  | gap_open          (* right after a [>] *)
  | gap_spaces.       (* after a [>] and some white space *)

Definition gap_step (q : gap_state) (c : ascii) : gap_state :=
  if bool_decide (c = ">"%char) then gap_open
  else if Js.is_space c then
    match q with gap_none => gap_none | _ => gap_spaces end
  else gap_none.

(** A [>], white space and a [<] follow one another somewhere in [s], for a
    scan that stands in [q]. *)
Fixpoint has_gap (q : gap_state) (s : string) : bool :=
  match s with
  | EmptyString => false
  | String c s' =>
      match q with
      | gap_spaces => bool_decide (c = "<"%char) || has_gap (gap_step q c) s'
      | _ => has_gap (gap_step q c) s'
      end
  end.

(** *** A sample session *)

(** An input container whose markup holds no hint yet. *)
Definition sample_input_box : input_box :=
  {| hints := []; send_btn_text := "发送" |}.

(** A frame that announces a message of the programmer, and a parser that
    reads it. *)
Definition message_frame : string :=
  "{" +:+ quoted "type" +:+ ":" +:+ quoted "new_message" +:+ ","
  +:+ quoted "message" +:+ ":{"
  +:+ quoted "role" +:+ ":" +:+ quoted "programmer_ai" +:+ ","
  +:+ quoted "type" +:+ ":" +:+ quoted "normal" +:+ ","
  +:+ quoted "content" +:+ ":" +:+ quoted "some code" +:+ ","
  +:+ quoted "timestamp" +:+ ":1}}".

Definition sample_feed (frame : string) : option data :=
  if bool_decide (frame = message_frame) then
    Some (new_message (sample_message "programmer_ai" "some code" 1))
  else sample_parse frame.

(** The channel opens, a message arrives, the user selects the column of
    the architect, opens the timeline and starts to compose a text, and
    the channel is lost. *)
Definition sample_events : list event :=
  [socket_open; socket_message message_frame; column_clicked "architect_ai";
   timeline_toggle_click; compositionstart; socket_close].

Definition sample_session : session :=
  session_after sample_marked sample_clock sample_feed sample_page
    sample_input_box sample_events.

(* ===================================================================== *)
(** ** Facts about the building blocks *)
(* ===================================================================== *)

(** *** Sorting by a numeric key *)

Section SortFacts.
Context {A : Type} (key : A → Z).

Abbreviation by_key := (λ a b : A, (key a - key b)%Z).
Abbreviation ascending := (λ a b : A, (key a ≤ key b)%Z).






End SortFacts.

(** *** The matcher against the meaning of the expressions *)

Module RegExpFacts.
Import RegExp.

Lemma append_cons c s t : String c s +:+ t = String c (s +:+ t).
Proof. reflexivity. Qed.

Lemma append_nil_l t : "" +:+ t = t.
Proof. reflexivity. Qed.

Lemma append_eq_nil s1 s2 : s1 +:+ s2 = "" → s1 = "" ∧ s2 = "".
Proof.
  destruct s1; [by rewrite append_nil_l | rewrite append_cons; discriminate].
Qed.

(** A string split in two begins in its first part, unless that part is
    empty. *)
Lemma append_eq_cons s1 s2 c s :
  s1 +:+ s2 = String c s →
  (s1 = "" ∧ s2 = String c s) ∨ (∃ s1', s1 = String c s1' ∧ s = s1' +:+ s2).
Proof.
  destruct s1 as [|c1 s1]; [rewrite append_nil_l; by left|].
  rewrite append_cons. intros [= -> <-]. right. by eexists.
Qed.

Lemma nullable_spec r : nullable r = true ↔ matches r "".
Proof.
  split.
  - induction r; simpl; intros H; try done.
    + constructor.
    + apply andb_true_iff in H as [H1 H2].
      change "" with ("" +:+ ""). constructor; auto.
    + apply orb_true_iff in H as [H|H]; [apply m_alt_l | apply m_alt_r]; auto.
    + constructor.
  - remember "" as s eqn:Hs. induction 1; simpl; try done.
    + apply append_eq_nil in Hs as [-> ->]. by rewrite IHmatches1, IHmatches2.
    + by rewrite IHmatches.
    + rewrite IHmatches by done. apply orb_true_r.
Qed.

Lemma matches_star_cons r c s :
  matches (star r) (String c s) →
  ∃ s1 s2, s = s1 +:+ s2 ∧ matches r (String c s1) ∧ matches (star r) s2.
Proof.
  inversion 1 as [| | | | | |r' c' s1 s2 H1 H2]; subst. by exists s1, s2.
Qed.

Lemma deriv_spec c r s : matches (deriv c r) s ↔ matches r (String c s).
Proof.
  revert s. induction r as [| |k|r1 IH1 r2 IH2|r1 IH1 r2 IH2|r IH]; intros s; simpl.
  - split; inversion 1.
  - split; inversion 1.
  - destruct (in_class k c) eqn:Hk; split; inversion 1; subst.
    + by constructor.
    + constructor.
    + congruence.
  - split.
    + destruct (nullable r1) eqn:Hn.
      * inversion 1 as [| | |? ? ? H1|? ? ? H2| |]; subst.
        -- inversion H1; subst. change (String c (?a +:+ ?b)) with (String c a +:+ b).
           constructor; [by apply IH1 | done].
        -- change (String c s) with ("" +:+ String c s).
           constructor; [by apply nullable_spec | by apply IH2].
      * inversion 1; subst. change (String c (?a +:+ ?b)) with (String c a +:+ b).
        constructor; [by apply IH1 | done].
    + inversion 1 as [| |? ? s1 s2 H1 H2 Hr Hs| | | |]; subst.
      apply append_eq_cons in Hs as [[-> ->]|(s1' & -> & ->)].
      * apply nullable_spec in H1. rewrite H1. apply m_alt_r. by apply IH2.
      * destruct (nullable r1); [apply m_alt_l|]; constructor; try done; by apply IH1.
  - split; inversion 1; subst.
    + apply m_alt_l. by apply IH1.
    + apply m_alt_r. by apply IH2.
    + apply m_alt_l. by apply IH1.
    + apply m_alt_r. by apply IH2.
  - split.
    + inversion 1; subst. change (String c (?a +:+ ?b)) with (String c a +:+ b).
      constructor; [by apply IH | done].
    + intros H. apply matches_star_cons in H as (s1 & s2 & -> & H1 & H2).
      constructor; [by apply IH | done].
Qed.

(** [matches_prefix] finds a prefix that matches, and only that. *)
Lemma matches_prefix_spec r s :
  matches_prefix r s = true ↔ ∃ s1 s2, s = s1 +:+ s2 ∧ matches r s1.
Proof.
  revert r. induction s as [|c s IH]; intros r; simpl.
  - rewrite orb_false_r, nullable_spec. split.
    + intros H. by exists "", "".
    + intros (s1 & s2 & Hs & H). symmetry in Hs.
      by apply append_eq_nil in Hs as [-> ->].
  - rewrite orb_true_iff, nullable_spec, IH. split.
    + intros [H|(s1 & s2 & -> & H)].
      * by exists "", (String c s).
      * exists (String c s1), s2. split; [done|]. by apply deriv_spec.
    + intros (s1 & s2 & Hs & H). symmetry in Hs.
      apply append_eq_cons in Hs as [[-> ->]|(s1' & -> & ->)]; [by left|].
      right. exists s1', s2. split; [done|]. by apply deriv_spec.
Qed.

Lemma search_nil p before :
  search p before ""
  = (negb (line_start p) || before) && matches_prefix (body p) "".
Proof. simpl. by rewrite !orb_false_r. Qed.

Lemma search_cons p before c s :
  search p before (String c s)
  = ((negb (line_start p) || before) && matches_prefix (body p) (String c s))
    || search p (Js.is_line_terminator c) s.
Proof. reflexivity. Qed.

Lemma search_spec p before s :
  search p before s = true ↔
  ∃ pre mid post,
    s = pre +:+ (mid +:+ post) ∧ matches (body p) mid ∧
    (line_start p = true → at_line_start before pre = true).
Proof.
  revert before. induction s as [|c s IH]; intros before.
  - rewrite search_nil, andb_true_iff, matches_prefix_spec. split.
    + intros (Hb & mid & post & Hs & Hm). exists "", mid, post.
      split; [done|]. split; [done|]. intros Hl. simpl.
      rewrite Hl in Hb. by destruct before.
    + intros (pre & mid & post & Hs & Hm & Hb). symmetry in Hs.
      apply append_eq_nil in Hs as [-> Hs]. split.
      * destruct (line_start p); [exact (Hb eq_refl) | done].
      * exists mid, post. by rewrite Hs.
  - rewrite search_cons, orb_true_iff, andb_true_iff, matches_prefix_spec, IH.
    split.
    + intros [(Hb & mid & post & Hs & Hm)|(pre & mid & post & -> & Hm & Hb)].
      * exists "", mid, post. split; [done|]. split; [done|]. intros Hl.
        simpl. rewrite Hl in Hb. by destruct before.
      * by exists (String c pre), mid, post.
    + intros (pre & mid & post & Hs & Hm & Hb). destruct pre as [|c' pre].
      * left. split; [|by exists mid, post].
        destruct (line_start p); [exact (Hb eq_refl) | done].
      * rewrite append_cons in Hs. injection Hs as <- ->.
        right. by exists pre, mid, post.
Qed.

(** [test] holds exactly when a piece of the input matches the body of
    the pattern and, for a pattern that opens with [^], begins a line. *)
Lemma test_spec p s :
  test p s = true ↔
  ∃ pre mid post,
    s = pre +:+ (mid +:+ post) ∧ matches (body p) mid ∧
    (line_start p = true → at_line_start true pre = true).
Proof. apply search_spec. Qed.

End RegExpFacts.

(** *** Plain objects *)


Lemma known_role_truthy r : r ∈ known_roles → Js.truthy r = true.
Proof.
  unfold known_roles. rewrite !elem_of_cons, elem_of_nil.
  intros H. destruct r; [|done]. repeat destruct H as [H|H]; done.
Qed.


Lemma get_own_inv {V} (o : gmap string V) k v :
  Js.get o k = Js.own v → o !! k = Some v.
Proof.
  unfold Js.get. destruct (o !! k); [congruence|].
  by case_bool_decide.
Qed.



(** *** What the renderers leave alone *)

Section Frames.
Variable marked_parse : string → string.
Variable toLocaleTimeString : Z → string.

Lemma this_on_page f w : this (on_page f w) = this w.
Proof. done. Qed.

Lemma this_clear_emphasis w : this (clear_emphasis w) = this w.
Proof. done. Qed.

Lemma this_apply_emphasis w : this (apply_emphasis w) = this w.
Proof.
  unfold apply_emphasis.
  repeat (case_match; simpl; try done).
Qed.

Lemma this_updateColumnLayout w : this (updateColumnLayout w) = this w.
Proof.
  unfold updateColumnLayout.
  by rewrite this_apply_emphasis, this_clear_emphasis.
Qed.

Lemma this_setLastMessageColumn r w :
  this (setLastMessageColumn r w) = with_lastMessageColumn (Some r) (this w).
Proof.
  unfold setLastMessageColumn. simpl.
  case_match; simpl; by rewrite this_updateColumnLayout.
Qed.

Lemma this_setUserSelectedColumn r w :
  this (setUserSelectedColumn r w)
  = with_userSelectedColumn (Some r) (this w).
Proof.
  unfold setUserSelectedColumn. simpl. by rewrite this_updateColumnLayout.
Qed.

Lemma this_renderMessageInColumn m w :
  this (renderMessageInColumn marked_parse toLocaleTimeString m w) = this w.
Proof. unfold renderMessageInColumn. by case_match. Qed.

Lemma this_addMessage m w :
  this (addMessage marked_parse toLocaleTimeString m w)
  = with_lastMessageColumn (Some (role m))
      (with_messageCounts
         (Js.postfix_increment (messageCounts (this w)) (role m))
         (with_messages (messages (this w) ++ [m]) (this w))).
Proof.
  unfold addMessage, playNotificationSound.
  match goal with |- context [if ?b then _ else _] => destruct b end;
    unfold renderTimelineView;
    rewrite ?this_on_page, this_setLastMessageColumn;
    unfold updateMessageCount, on_column;
    rewrite this_on_page, this_renderMessageInColumn; done.
Qed.

Lemma messages_addMessage m w :
  messages (this (addMessage marked_parse toLocaleTimeString m w))
  = messages (this w) ++ [m].
Proof. by rewrite this_addMessage. Qed.


Lemma messages_forEach_addMessage l w :
  messages (this (forEach_addMessage marked_parse toLocaleTimeString l w))
  = messages (this w) ++ l.
Proof.
  revert w. induction l as [|m l IH]; intros w; simpl.
  - by rewrite app_nil_r.
  - unfold forEach_addMessage in *. simpl.
    rewrite IH, messages_addMessage, <- app_assoc. done.
Qed.
End Frames.


(* ===================================================================== *)
(** ** Message store *)
(* ===================================================================== *)


Section MessageStore.
Variable marked_parse : string → string.
Variable toLocaleTimeString : Z → string.






End MessageStore.


Example counters_after_three :
  let w :=
    forEach_addMessage sample_marked sample_clock
      [ sample_message "ether" "one" 3; sample_message "human" "two" 1;
        sample_message "ether" "three" 2 ]
      sample_world in
  Js.get (messageCounts (this w)) "ether" = Js.own (Js.num 2) ∧
  Js.get (messageCounts (this w)) "human" = Js.own (Js.num 1) ∧
  Js.get (messageCounts (this w)) "product_ai" = Js.own (Js.num 0).
Proof. vm_compute. done. Qed.

(** A role outside the table gets a counter of its own, which is [NaN]. *)
Example counter_of_unknown_role :
  let w :=
    addMessage sample_marked sample_clock
      (sample_message "narrator" "hello" 0) sample_world in
  Js.get (messageCounts (this w)) "narrator" = Js.own Js.NaN ∧
  Js.get (messageCounts (this w)) "human" = Js.own (Js.num 0).
Proof. vm_compute. done. Qed.


(* ===================================================================== *)
(** ** Column renderer *)
(* ===================================================================== *)

(** One message on the sample page: the column gets the node, the badge,
    the transient classes with their timers, and the layout classes. *)
Example column_after_message :
  let w :=
    addMessage sample_marked sample_clock (sample_message "human" "hi" 1)
      sample_world in
  (classList <$> columns (page w) !! "human")
  = Some (list_to_set
            ["active"; "message-active"; "new-message"; "recently-active"]) ∧
  (messages_container <$> columns (page w) !! "human")
  = Some [ {| className := "message normal";
              message_content := textContent "hi";
              message_timestamp := "00:00:00" |} ] ∧
  (message_count <$> columns (page w) !! "human") = Some (Js.own (Js.num 1)) ∧
  timers (browser w)
  = [ {| callback := remove_class "human" "new-message"; delay := 1000 |};
      {| callback := remove_class "human" "recently-active"; delay := 2000 |} ] ∧
  container (page w)
  = {| has_active := true; data_active := Some "human";
       data_dual_active := None |}.
Proof. intros w. repeat split; vm_compute; reflexivity. Qed.

(** Once both timers have fired, the layout classes remain. *)
Example column_after_timers :
  let w :=
    addMessage sample_marked sample_clock (sample_message "human" "hi" 1)
      sample_world in
  (classList <$> columns (page (fire 0 (fire 0 w))) !! "human")
  = Some (list_to_set ["active"; "message-active"]).
Proof. vm_compute. reflexivity. Qed.


(* ===================================================================== *)
(** ** Content formatter *)
(* ===================================================================== *)

Lemma containsMarkdown_true text :
  containsMarkdown text = true
  ↔ ∃ p, p ∈ markdownPatterns ∧ RegExp.test p text = true.
Proof.
  unfold containsMarkdown. rewrite existsb_exists.
  split; intros (p & Hp & Ht); exists p; by rewrite ?list_elem_of_In in *.
Qed.

Section ContentFormatter.
Variable marked_parse : string → string.
Variable toLocaleTimeString : Z → string.

Abbreviation column_node m :=
  (message_content (createMessageElement marked_parse toLocaleTimeString m)).
Abbreviation timeline_node m :=
  (timeline_message_content
     (createTimelineMessageElement marked_parse toLocaleTimeString m)).


End ContentFormatter.


Example markdown_detection :
  containsMarkdown "# Title" = true ∧
  containsMarkdown "**bold**" = true ∧
  containsMarkdown "2 * 3 * 4" = true ∧
  containsMarkdown "see [docs](http://x)" = true ∧
  containsMarkdown "a---b" = true ∧
  containsMarkdown "a--b" = false ∧
  containsMarkdown "#Title" = false ∧
  containsMarkdown "####### seven" = false ∧
  containsMarkdown "a - b" = false ∧
  containsMarkdown "plain text only" = false.
Proof. vm_compute. done. Qed.

(** Under the flag [m] a heading or a list item may open any line; [.]
    does not cross a line break, [[\s\S]] does. *)
Example markdown_detection_lines :
  containsMarkdown "intro
## heading" = true ∧
  containsMarkdown "intro
  - item" = true ∧
  containsMarkdown "a *
*b" = false ∧
  containsMarkdown "```
code
```" = true.
Proof. vm_compute. done. Qed.

Example replace_gaps_sample :
  replace_gaps None "<ul> <li>a</li>  <li>b</li> </ul> > x"
  = "<ul><li>a</li><li>b</li></ul> > x".
Proof. reflexivity. Qed.

Example trim_sample : Js.trim "  hi there  " = "hi there".
Proof. reflexivity. Qed.


(* ===================================================================== *)
(** ** Role labels *)
(* ===================================================================== *)

Lemma roleNames_lookup_None r : r ∉ known_roles → roleNames !! r = None.
Proof.
  intros Hr. apply not_elem_of_list_to_map_1. exact Hr.
Qed.

(** What [getRoleDisplayName] returns on each kind of role. *)
Lemma getRoleDisplayName_cases r :
  (r ∈ known_roles → ∃ label, roleNames !! r = Some label ∧
                         getRoleDisplayName r = str label) ∧
  (r ∉ known_roles → r ∈ Js.Object_prototype →
     getRoleDisplayName r = builtin r) ∧
  (r ∉ known_roles → r ∉ Js.Object_prototype →
     getRoleDisplayName r = str r).
Proof.
  split; [|split].
  - unfold known_roles. rewrite !elem_of_cons, elem_of_nil. intros Hr.
    repeat destruct Hr as [->|Hr]; try done; eexists; split; reflexivity.
  - intros Hr Hp. unfold getRoleDisplayName, Js.get.
    rewrite roleNames_lookup_None by done. by rewrite bool_decide_eq_true_2.
  - intros Hr Hp. unfold getRoleDisplayName, Js.get.
    rewrite roleNames_lookup_None by done. by rewrite bool_decide_eq_false_2.
Qed.

(** C10.  [getRoleDisplayName] returns the label of each of the six known
    roles, but it does not return every other role string unchanged: for
    the role [constructor] the lookup [roleNames[role]] finds the member
    that every object inherits from [Object.prototype], which is truthy,
    and the function returns that member instead of the string. *)
Theorem getRoleDisplayName_constructor :
  getRoleDisplayName "human" = str "👤 人类" ∧
  getRoleDisplayName "narrator" = str "narrator" ∧
  getRoleDisplayName "constructor" = builtin "constructor" ∧
  getRoleDisplayName "constructor" ≠ str "constructor".
Proof. repeat split; try reflexivity. intros Heq; discriminate Heq. Qed.


(* ===================================================================== *)
(** ** Timeline renderer *)
(* ===================================================================== *)

Section Timeline.
Variable marked_parse : string → string.
Variable toLocaleTimeString : Z → string.

Abbreviation render := (renderTimelineView marked_parse toLocaleTimeString).
Abbreviation element :=
  (createTimelineMessageElement marked_parse toLocaleTimeString).


End Timeline.

Example timeline_sample :
  let a := sample_message "ether" "first received" 20 in
  let b := sample_message "human" "second received" 10 in
  let c := sample_message "product_ai" "third received" 20 in
  sortedMessages [a; b; c] = [b; a; c].
Proof. reflexivity. Qed.


(* ===================================================================== *)
(** ** Focus state machine *)
(* ===================================================================== *)

Lemma truthy_nonempty r : Js.truthy r = true ↔ r ≠ "".
Proof. by destruct r. Qed.


Lemma activeColumns_dual o a b :
  userSelectedColumn o = Some a → lastMessageColumn o = Some b →
  Js.truthy a = true → Js.truthy b = true → a ≠ b →
  activeColumns o = [a; b].
Proof.
  intros Hu Hl Ha Hb Hne. unfold activeColumns. rewrite Hu, Hl, Ha, Hb.
  rewrite bool_decide_eq_true_2; [done|]. intros [= ->]. by apply Hne.
Qed.

Lemma activeColumns_single o a :
  userSelectedColumn o = Some a → lastMessageColumn o = Some a →
  Js.truthy a = true → activeColumns o = [a].
Proof.
  intros Hu Hl Ha. unfold activeColumns. rewrite Hu, Hl, Ha.
  by rewrite bool_decide_eq_false_2 by (by intros []).
Qed.

Lemma container_on_column r f w :
  container (page (on_column r f w)) = container (page w).
Proof. done. Qed.

(** The mode [updateColumnLayout] leaves on the container. *)
Lemma container_updateColumnLayout w :
  container (page (updateColumnLayout w))
  = layout_mode (activeColumns (this w)) (container (page w)).
Proof.
  unfold updateColumnLayout, apply_emphasis, layout_mode.
  rewrite this_clear_emphasis.
  destruct (activeColumns (this w)) as [|a [|b [|c l]]]; simpl; try done;
    repeat (case_match; simpl; try done).
Qed.

Section Focus.
Variable marked_parse : string → string.
Variable toLocaleTimeString : Z → string.

Lemma container_setLastMessageColumn r w :
  container (page (setLastMessageColumn r w))
  = container
      (page (updateColumnLayout (on_this (with_lastMessageColumn (Some r)) w))).
Proof. unfold setLastMessageColumn. simpl. by case_match. Qed.

Lemma container_renderMessageInColumn m w :
  container (page (renderMessageInColumn marked_parse toLocaleTimeString m w))
  = container (page w).
Proof. unfold renderMessageInColumn. by case_match. Qed.

(** After [addMessage] the container shows the mode of the new focus
    state. *)
Lemma container_addMessage m w :
  container (page (addMessage marked_parse toLocaleTimeString m w))
  = layout_mode
      (activeColumns (this (addMessage marked_parse toLocaleTimeString m w)))
      (container (page w)).
Proof.
  rewrite this_addMessage.
  unfold addMessage, playNotificationSound.
  match goal with |- context [if ?c then _ else _] => destruct c end;
    unfold renderTimelineView; simpl;
    rewrite container_setLastMessageColumn, container_updateColumnLayout;
    simpl; rewrite this_renderMessageInColumn, container_renderMessageInColumn;
    done.
Qed.

End Focus.

Lemma elem_of_add_classes cs col c :
  c ∈ classList (add_classes cs col) ↔ c ∈ classList col ∨ c ∈ cs.
Proof. simpl. by rewrite elem_of_union, elem_of_list_to_set. Qed.

Lemma elem_of_remove_classes cs col c :
  c ∈ classList (remove_classes cs col) ↔ c ∈ classList col ∧ c ∉ cs.
Proof. simpl. by rewrite elem_of_difference, elem_of_list_to_set. Qed.

Lemma lookup_mark slot cs cols r :
  mark slot cs cols !! r
  = (if bool_decide (slot = Some r ∧ Js.truthy r = true)
     then add_classes cs else id) <$> cols !! r.
Proof.
  unfold mark. destruct slot as [u|].
  - destruct (Js.truthy u) eqn:Hu.
    + rewrite lookup_alter. case_decide as Hur.
      * subst u. by rewrite bool_decide_eq_true_2.
      * rewrite bool_decide_eq_false_2; [by rewrite option_fmap_id|].
        intros [[= ->] _]. done.
    + rewrite bool_decide_eq_false_2; [by rewrite option_fmap_id|].
      intros [[= ->] ?]. congruence.
  - rewrite bool_decide_eq_false_2; [by rewrite option_fmap_id|].
    by intros [? _].
Qed.

(** The columns after a recomputation: all are cleared, then the two slots
    are marked. *)
Lemma columns_updateColumnLayout w :
  columns (page (updateColumnLayout w))
  = mark (lastMessageColumn (this w)) ["active"; "message-active"]
      (mark (userSelectedColumn (this w)) ["active"; "user-selected"]
         (remove_classes emphasis_classes <$> columns (page w))).
Proof.
  unfold updateColumnLayout, apply_emphasis, activeColumns, mark.
  rewrite this_clear_emphasis.
  destruct (userSelectedColumn (this w)) as [u|] eqn:Hu,
           (lastMessageColumn (this w)) as [l|] eqn:Hl;
    try destruct (Js.truthy u) eqn:Htu; try destruct (Js.truthy l) eqn:Htl;
    simpl; try case_bool_decide; simpl; try done.
  simplify_eq. congruence.
Qed.


(** The recomputation touches no other class: the transient classes
    [new-message] and [recently-active] stay until their timers fire. *)
Lemma other_classes_kept w r col c :
  columns (page (updateColumnLayout w)) !! r = Some col →
  c ∉ emphasis_classes →
  ∃ col0, columns (page w) !! r = Some col0 ∧
          (c ∈ classList col ↔ c ∈ classList col0).
Proof.
  intros Hcol Hc.
  rewrite columns_updateColumnLayout, !lookup_mark, lookup_fmap in Hcol.
  destruct (columns (page w) !! r) as [col0|]; [|done].
  exists col0. split; [done|].
  simpl in Hcol. injection Hcol as <-.
  unfold emphasis_classes in Hc. rewrite !not_elem_of_cons in Hc.
  repeat case_bool_decide;
    rewrite ?elem_of_add_classes; simpl id;
    rewrite ?elem_of_add_classes, elem_of_remove_classes;
    rewrite ?elem_of_cons, ?elem_of_nil;
    unfold emphasis_classes; rewrite ?elem_of_cons, ?elem_of_nil;
    intuition (simplify_eq; try done).
Qed.


Section FocusScenario.
Variable marked_parse : string → string.
Variable toLocaleTimeString : Z → string.

Abbreviation arrive := (addMessage marked_parse toLocaleTimeString).

(** The scenario for any two distinct truthy role strings. *)
Lemma select_then_message_truthy (A B : string) (w : world) (mB mA : Message) :
  Js.truthy A = true → Js.truthy B = true → A ≠ B →
  role mB = B → role mA = A →
  let w1 := arrive mB (setUserSelectedColumn A w) in
  let w2 := arrive mA w1 in
  activeColumns (this w1) = [A; B] ∧
  container (page w1)
  = {| has_active := true; data_active := None;
       data_dual_active := Some (A +:+ "-" +:+ B) |} ∧
  activeColumns (this w2) = [A] ∧
  container (page w2)
  = {| has_active := true; data_active := Some A; data_dual_active := None |}.
Proof.
  intros HA HB Hne HmB HmA w1 w2.
  assert (H1 : activeColumns (this w1) = [A; B]).
  { subst w1. apply activeColumns_dual; try done;
      rewrite this_addMessage, ?this_setUserSelectedColumn; simpl; congruence. }
  assert (H2 : activeColumns (this w2) = [A]).
  { subst w2 w1. apply activeColumns_single; try done;
      rewrite !this_addMessage, ?this_setUserSelectedColumn; simpl; congruence. }
  split; [exact H1|]. split; [|split; [exact H2|]].
  - subst w1. rewrite container_addMessage. fold arrive. by rewrite H1.
  - subst w2. rewrite container_addMessage. fold arrive. by rewrite H2.
Qed.

(** C5.  For two distinct roles [A] and [B], from any state: once the user
    selects column [A] and a message of role [B] arrives, the active
    columns are [A] then [B] and the container is in the dual layout keyed
    [A-B], the selected role first; once a message of role [A] arrives
    after that, the only active column is [A] and the container is in the
    single layout keyed [A]. *)
Theorem select_then_message (A B : string) (w : world) (mB mA : Message) :
  A ∈ known_roles → B ∈ known_roles → A ≠ B →
  role mB = B → role mA = A →
  let w1 := arrive mB (setUserSelectedColumn A w) in
  let w2 := arrive mA w1 in
  activeColumns (this w1) = [A; B] ∧
  container (page w1)
  = {| has_active := true; data_active := None;
       data_dual_active := Some (A +:+ "-" +:+ B) |} ∧
  activeColumns (this w2) = [A] ∧
  container (page w2)
  = {| has_active := true; data_active := Some A; data_dual_active := None |}.
Proof.
  intros HA HB. apply select_then_message_truthy; by apply known_role_truthy.
Qed.

End FocusScenario.

(** The user selects the column of the programmer, then the architect
    speaks, then the programmer. *)
Lemma select_then_message_witness :
  let A := "programmer_ai" in
  let B := "architect_ai" in
  let mB := sample_message B "a plan" 1 in
  let mA := sample_message A "some code" 2 in
  let w1 :=
    addMessage sample_marked sample_clock mB
      (setUserSelectedColumn A sample_world) in
  let w2 := addMessage sample_marked sample_clock mA w1 in
  A ∈ known_roles ∧ B ∈ known_roles ∧ A ≠ B ∧
  activeColumns (this w1) = [A; B] ∧
  container (page w1)
  = {| has_active := true; data_active := None;
       data_dual_active := Some (A +:+ "-" +:+ B) |} ∧
  activeColumns (this w2) = [A] ∧
  container (page w2)
  = {| has_active := true; data_active := Some A; data_dual_active := None |}.
Proof.
  intros A B mB mA w1 w2.
  assert (HA : A ∈ known_roles)
    by (apply (bool_decide_unpack _); vm_compute; exact I).
  assert (HB : B ∈ known_roles)
    by (apply (bool_decide_unpack _); vm_compute; exact I).
  assert (Hne : A ≠ B) by (intros Heq; discriminate Heq).
  split; [exact HA|]. split; [exact HB|]. split; [exact Hne|].
  exact (select_then_message sample_marked sample_clock A B sample_world mB mA
           HA HB Hne eq_refl eq_refl).
Defined.

Example dual_layout_key :
  data_dual_active
    (container
       (page
          (addMessage sample_marked sample_clock
             (sample_message "architect_ai" "a plan" 1)
             (setUserSelectedColumn "programmer_ai" sample_world))))
  = Some "programmer_ai-architect_ai".
Proof. vm_compute. reflexivity. Qed.


(* ===================================================================== *)
(** ** Connection manager *)
(* ===================================================================== *)

Lemma run_reconnect w :
  run reconnect w = setupWebSocket (print (console_log "尝试重新连接...") w) ∧
  sockets (browser (run reconnect w)) = S (sockets (browser w)) ∧
  ws (this (run reconnect w)) = S (sockets (browser w)) ∧
  timers (browser (run reconnect w)) = timers (browser w).
Proof. done. Qed.

Lemma timers_ws_onclose w :
  timers (browser (ws_onclose w))
  = timers (browser w) ++ [ {| callback := reconnect; delay := 3000 |} ].
Proof. done. Qed.

Lemma sockets_ws_onclose w :
  sockets (browser (ws_onclose w)) = sockets (browser w).
Proof. done. Qed.

(** The reconnect a loss schedules is the last pending timer; when it
    fires, a socket is opened and the pending timers are those from before
    the loss. *)
Lemma lose_and_retry_opens w :
  sockets (browser (lose_and_retry w)) = S (sockets (browser w)) ∧
  ws (this (lose_and_retry w)) = S (sockets (browser w)) ∧
  timers (browser (lose_and_retry w)) = timers (browser w).
Proof.
  unfold lose_and_retry, fire.
  rewrite timers_ws_onclose, list_lookup_middle by done.
  cbn [callback].
  destruct (run_reconnect
              (on_browser (with_timers (delete (length (timers (browser w)))))
                 (ws_onclose w))) as (_ & -> & -> & ->).
  cbn [on_browser browser with_timers timers sockets].
  rewrite timers_ws_onclose, sockets_ws_onclose.
  by rewrite (delete_middle _ []), app_nil_r.
Qed.

(** C7.  Every loss of the channel clears the liveness flag, shows the
    disconnected status, disables the three controls and adds exactly one
    timer to the pending ones: a reconnect due in 3000 ms.  When that timer
    fires it opens a new socket, in any state.  Neither the delay nor the
    scheduling depends on the state, so after any number of losses in a
    row one more socket has been opened for each of them. *)
Theorem close_schedules_one_reconnect (w : world) :
  let w' := ws_onclose w in
  isConnected (this w') = false ∧
  status_class (connection_status (page w')) = "status disconnected" ∧
  buttons (page w')
  = {| send_btn_disabled := true; interrupt_btn_disabled := true;
       human_input_disabled := true |} ∧
  timers (browser w')
  = timers (browser w) ++ [ {| callback := reconnect; delay := 3000 |} ] ∧
  (∀ w0, run reconnect w0
         = setupWebSocket (print (console_log "尝试重新连接...") w0) ∧
         sockets (browser (run reconnect w0)) = S (sockets (browser w0)) ∧
         ws (this (run reconnect w0)) = S (sockets (browser w0))) ∧
  (∀ n, sockets (browser (Nat.iter n lose_and_retry w))
        = sockets (browser w) + n ∧
        timers (browser (Nat.iter n lose_and_retry w)) = timers (browser w)).
Proof.
  intros w'. split; [done|]. split; [done|]. split; [done|].
  split; [apply timers_ws_onclose|]. split.
  - intros w0. by destruct (run_reconnect w0) as (? & ? & ? & _).
  - induction n as [|n [IHs IHt]]; simpl.
    + by rewrite Nat.add_0_r.
    + destruct (lose_and_retry_opens (Nat.iter n lose_and_retry w))
        as (-> & _ & ->).
      rewrite IHs, IHt. split; [lia | done].
Qed.

Example three_losses :
  sockets (browser (Nat.iter 3 lose_and_retry sample_world)) = 4 ∧
  delay <$> timers (browser (ws_onclose (Nat.iter 3 lose_and_retry sample_world)))
  = [3000%N].
Proof. vm_compute. done. Qed.

(** *** Live arrival and the timers of the transient classes *)

Lemma alter_absent {V} (f : V → V) (m : gmap string V) i :
  m !! i = None → alter f i m = m.
Proof.
  intros Hi. apply map_eq. intros j. rewrite lookup_alter.
  case_decide; [subst; by rewrite Hi | done].
Qed.

Lemma column_view_mark slot cs cols :
  column_view <$> mark slot cs cols = column_view <$> cols.
Proof.
  unfold mark. destruct slot as [r|]; [|done].
  destruct (Js.truthy r); [|done].
  rewrite (fmap_alter _ _ id) by done. by apply alter_id.
Qed.

Lemma column_view_classes f (cols : gmap string column) r :
  column_view <$> alter (with_classList f) r cols = column_view <$> cols.
Proof.
  rewrite (fmap_alter _ _ id) by done. by apply alter_id.
Qed.

Section Views.
Variable marked_parse : string → string.
Variable toLocaleTimeString : Z → string.

Lemma columns_updateColumnLayout_view w :
  column_view <$> columns (page (updateColumnLayout w))
  = column_view <$> columns (page w).
Proof.
  rewrite columns_updateColumnLayout, !column_view_mark.
  rewrite <- map_fmap_compose. by apply map_fmap_ext.
Qed.

Lemma columns_renderMessageInColumn m w :
  columns (page (renderMessageInColumn marked_parse toLocaleTimeString m w))
  = alter (add_classes ["new-message"]) (role m)
      (alter
         (with_messages_container
            (λ l, l ++ [createMessageElement marked_parse toLocaleTimeString m]))
         (role m) (columns (page w))).
Proof.
  unfold renderMessageInColumn.
  destruct (columns (page w) !! role m) eqn:Hc; [done|].
  by rewrite !alter_absent by (by rewrite ?alter_absent).
Qed.

(** The messages and badges of the columns after [addMessage]. *)
Lemma column_views_addMessage m w :
  column_view <$> columns (page (addMessage marked_parse toLocaleTimeString m w))
  = alter
      (λ v, (v.1, Js.get (Js.postfix_increment (messageCounts (this w)) (role m))
                    (role m)))
      (role m)
      (alter
         (λ v, (v.1 ++ [createMessageElement marked_parse toLocaleTimeString m],
                v.2))
         (role m) (column_view <$> columns (page w))).
Proof.
  unfold addMessage, playNotificationSound.
  set (w2 := on_this _ (on_this _ w)).
  set (w3 := renderMessageInColumn _ _ m w2).
  set (w4 := updateMessageCount (role m) w3).
  assert (H5 : column_view <$> columns (page (setLastMessageColumn (role m) w4))
               = column_view <$> columns (page w4)).
  { unfold setLastMessageColumn.
    set (w5 := updateColumnLayout _).
    transitivity (column_view <$> columns (page w5)).
    - destruct (columns (page w5) !! role m); [|done].
      simpl. apply column_view_classes.
    - subst w5. by rewrite columns_updateColumnLayout_view. }
  transitivity (column_view <$> columns (page w4)).
  { rewrite <- H5. by destruct (negb _). }
  subst w4. unfold updateMessageCount. simpl.
  rewrite (fmap_alter _ _
             (λ v, (v.1, Js.get (messageCounts (this w3)) (role m)))) by done.
  subst w3. rewrite this_renderMessageInColumn, columns_renderMessageInColumn.
  unfold add_classes. rewrite column_view_classes.
  by rewrite (fmap_alter _ _
             (λ v, (v.1 ++ [createMessageElement marked_parse toLocaleTimeString m],
                    v.2))) by done.
Qed.

Lemma page_rest_updateColumnLayout w :
  page_rest (page (updateColumnLayout w)) = page_rest (page w).
Proof.
  unfold updateColumnLayout, apply_emphasis.
  repeat (case_match; simpl; try done).
Qed.

Lemma page_rest_setLastMessageColumn r w :
  page_rest (page (setLastMessageColumn r w)) = page_rest (page w).
Proof.
  unfold setLastMessageColumn.
  case_match;
    (transitivity
       (page_rest
          (page (updateColumnLayout
                   (on_this (with_lastMessageColumn (Some r)) w))));
     [done | exact (page_rest_updateColumnLayout _)]).
Qed.

Lemma page_rest_renderMessageInColumn m w :
  page_rest (page (renderMessageInColumn marked_parse toLocaleTimeString m w))
  = page_rest (page w).
Proof. unfold renderMessageInColumn. by case_match. Qed.

(** Outside the columns and the container, [addMessage] only rebuilds the
    timeline, and only when it is open. *)
Lemma page_rest_addMessage m w :
  page_rest (page (addMessage marked_parse toLocaleTimeString m w))
  = (let '(hidden, shown, b, s, hi, ii, mh) := page_rest (page w) in
     (hidden,
      if hidden then shown
      else createTimelineMessageElement marked_parse toLocaleTimeString
             <$> sortedMessages (messages (this w) ++ [m]),
      b, s, hi, ii, mh)).
Proof.
  unfold addMessage, playNotificationSound.
  set (w2 := on_this _ (on_this _ w)).
  set (w4 := updateMessageCount _ _).
  assert (H4 : page_rest (page w4) = page_rest (page w)).
  { transitivity
      (page_rest
         (page (renderMessageInColumn marked_parse toLocaleTimeString m w2)));
      [done | by rewrite page_rest_renderMessageInColumn]. }
  assert (H5 : page_rest (page (setLastMessageColumn (role m) w4))
               = page_rest (page w)).
  { by rewrite page_rest_setLastMessageColumn. }
  assert (Hthis : messages (this (setLastMessageColumn (role m) w4))
                  = messages (this w) ++ [m]).
  { rewrite this_setLastMessageColumn. subst w4. unfold updateMessageCount.
    simpl. by rewrite this_renderMessageInColumn. }
  rewrite <- H5, <- Hthis.
  set (w5 := setLastMessageColumn (role m) w4). clearbody w5.
  unfold page_rest, renderTimelineView.
  destruct (timeline_view_hidden (page w5)) eqn:Hhidden; simpl;
    by rewrite ?Hhidden.
Qed.

Lemma browser_rest_updateColumnLayout w :
  browser_rest (browser (updateColumnLayout w)) = browser_rest (browser w).
Proof.
  unfold updateColumnLayout, apply_emphasis.
  repeat (case_match; simpl; try done).
Qed.

Lemma browser_rest_setLastMessageColumn r w :
  browser_rest (browser (setLastMessageColumn r w)) = browser_rest (browser w).
Proof.
  unfold setLastMessageColumn.
  case_match;
    (transitivity
       (browser_rest
          (browser (updateColumnLayout
                      (on_this (with_lastMessageColumn (Some r)) w))));
     [done | exact (browser_rest_updateColumnLayout _)]).
Qed.

Lemma browser_rest_renderMessageInColumn m w :
  browser_rest
    (browser (renderMessageInColumn marked_parse toLocaleTimeString m w))
  = browser_rest (browser w).
Proof. unfold renderMessageInColumn. by case_match. Qed.

Lemma browser_rest_addMessage m w :
  browser_rest (browser (addMessage marked_parse toLocaleTimeString m w))
  = browser_rest (browser w).
Proof.
  unfold addMessage, playNotificationSound.
  set (w2 := on_this _ (on_this _ w)).
  set (w4 := updateMessageCount _ _).
  transitivity (browser_rest (browser (setLastMessageColumn (role m) w4))).
  { by destruct (negb _). }
  rewrite browser_rest_setLastMessageColumn.
  transitivity
    (browser_rest
       (browser (renderMessageInColumn marked_parse toLocaleTimeString m w2)));
    [done | by rewrite browser_rest_renderMessageInColumn].
Qed.

(** [addMessage] takes equal views to equal views. *)
Lemma views_addMessage m w1 w2 :
  views w1 = views w2 →
  views (addMessage marked_parse toLocaleTimeString m w1)
  = views (addMessage marked_parse toLocaleTimeString m w2).
Proof.
  intros Hv.
  pose proof (f_equal (λ v, v.1.1.1.1) Hv) as Hthis.
  pose proof (f_equal (λ v, v.1.1.1.2) Hv) as Hcols.
  pose proof (f_equal (λ v, v.1.1.2) Hv) as Hcont.
  pose proof (f_equal (λ v, v.1.2) Hv) as Hrest.
  pose proof (f_equal (λ v, v.2) Hv) as Hbrowser.
  simpl in Hthis, Hcols, Hcont, Hrest, Hbrowser. unfold views.
  rewrite !column_views_addMessage, !container_addMessage,
    !page_rest_addMessage, !this_addMessage, !browser_rest_addMessage.
  by rewrite Hthis, Hcols, Hcont, Hrest, Hbrowser.
Qed.

(** A timer that takes a class off a column changes no view. *)
Lemma views_fire i r c d w :
  timers (browser w) !! i = Some {| callback := remove_class r c; delay := d |} →
  views (fire i w) = views w.
Proof.
  intros Hi. unfold fire. rewrite Hi. unfold views. simpl.
  unfold remove_classes. by rewrite column_view_classes.
Qed.

Lemma live_views l w1 w2 w' :
  views w1 = views w2 →
  live marked_parse toLocaleTimeString l w1 w' →
  views w' = views (forEach_addMessage marked_parse toLocaleTimeString l w2).
Proof.
  intros Hv Hlive. revert w2 Hv.
  induction Hlive as [w|m l w w' _ IH|i r c d l w w' Hi _ IH]; intros w2 Hv.
  - done.
  - apply IH. by apply views_addMessage.
  - apply IH. by rewrite (views_fire i r c d).
Qed.

(** However the timers of the transient classes fall between the
    arrivals, messages that arrive live leave the store and the views that
    the replay of the same list leaves. *)
Lemma replay_agrees_with_live l w w' :
  live marked_parse toLocaleTimeString l w w' →
  views w' = views (forEach_addMessage marked_parse toLocaleTimeString l w).
Proof. by apply live_views. Qed.

End Views.

(** *** The receive handler *)

Section Receive.
Variable marked_parse : string → string.
Variable toLocaleTimeString : Z → string.
Variable JSON_parse : string → option data.

Abbreviation handle := (handleWebSocketMessage marked_parse toLocaleTimeString).
Abbreviation onmessage :=
  (ws_onmessage marked_parse toLocaleTimeString JSON_parse).


(** C2, as the script has it.  The receive handler has no handler of
    errors around [JSON.parse].  For a frame that does not parse, the
    [SyntaxError] leaves the handler; the handler prints nothing and the
    state, with the log, the counters and the connection state, is what it
    was, so the frame is dropped.  The same holds, with a [TypeError], for
    the frame [null].  A frame that parses to a value whose [type] is not
    one the handler knows ends normally: one line is printed and the
    instance and the page are what they were. *)
Theorem malformed_frame_is_dropped (frame : string) (w : world) :
  (JSON_parse frame = None → onmessage frame w = throw SyntaxError w) ∧
  (JSON_parse frame = Some null → onmessage frame w = throw TypeError w) ∧
  (∀ type, JSON_parse frame = Some (other type) →
     ∃ w', onmessage frame w = normal w' ∧
       this w' = this w ∧ page w' = page w ∧
       console (browser w')
       = console (browser w) ++ [console_log_type "未知消息类型:" type] ∧
       timers (browser w') = timers (browser w) ∧
       sent (browser w') = sent (browser w)).
Proof.
  unfold ws_onmessage. split; [|split].
  - by intros ->.
  - by intros ->.
  - intros type ->. eexists. split; [reflexivity|]. done.
Qed.

End Receive.

(** A frame that is not JSON makes the receive handler end with the
    [SyntaxError] of [JSON.parse]: the error leaves the handler, and
    nothing was printed. *)
Lemma malformed_frame_escapes :
  sample_parse "{oops" = None ∧
  ws_onmessage sample_marked sample_clock sample_parse "{oops" sample_world
  = throw SyntaxError sample_world ∧
  ¬ (∃ w', ws_onmessage sample_marked sample_clock sample_parse "{oops"
             sample_world = normal w').
Proof.
  split; [reflexivity|]. split; [reflexivity|].
  intros [w' Hw']. discriminate Hw'.
Qed.

Lemma malformed_frame_is_dropped_witness :
  sample_parse "{oops" = None ∧
  ws_onmessage sample_marked sample_clock sample_parse "{oops" sample_world
  = throw SyntaxError sample_world ∧
  sample_parse ping_frame = Some (other (Some "ping")) ∧
  (∃ w', ws_onmessage sample_marked sample_clock sample_parse ping_frame
           sample_world = normal w' ∧
     this w' = this sample_world ∧ page w' = page sample_world ∧
     console (browser w')
     = console (browser sample_world)
       ++ [console_log_type "未知消息类型:" (Some "ping")] ∧
     timers (browser w') = timers (browser sample_world) ∧
     sent (browser w') = sent (browser sample_world)).
Proof.
  assert (H1 : sample_parse "{oops" = None) by reflexivity.
  assert (H2 : sample_parse ping_frame = Some (other (Some "ping")))
    by (vm_compute; reflexivity).
  split; [exact H1|]. split; [|split; [exact H2|]].
  - exact (proj1 (malformed_frame_is_dropped sample_marked sample_clock
                    sample_parse "{oops" sample_world) H1).
  - exact (proj2 (proj2 (malformed_frame_is_dropped sample_marked sample_clock
                           sample_parse ping_frame sample_world))
             (Some "ping") H2).
Defined.

Example replay_sample :
  let l := [ sample_message "ether" "one" 3; sample_message "human" "two" 1 ] in
  handleWebSocketMessage sample_marked sample_clock
    (connection_established (Some l)) sample_world
  = normal
      (addMessage sample_marked sample_clock (sample_message "human" "two" 1)
         (addMessage sample_marked sample_clock (sample_message "ether" "one" 3)
            sample_world)).
Proof. reflexivity. Qed.


(* ===================================================================== *)
(** ** Input controller *)
(* ===================================================================== *)

Lemma truthy_false s : Js.truthy s = false ↔ s = "".
Proof. by destruct s. Qed.

(** C9.  [sendHumanInput] and [confirmInterrupt] return the state they
    were given, so that nothing is sent and the fields and the modal stay
    as they are, when the trimmed content is empty or the liveness flag is
    false.  Otherwise [sendHumanInput] sends one [human_input] envelope
    with the trimmed content and empties the input field, and
    [confirmInterrupt] sends one [interrupt] envelope with the trimmed
    content, hides the modal and empties its field. *)
Theorem input_is_guarded (w : world) :
  (Js.trim (human_input (page w)) = "" ∨ isConnected (this w) = false →
     sendHumanInput w = w) ∧
  (Js.trim (interrupt_input (page w)) = "" ∨ isConnected (this w) = false →
     confirmInterrupt w = w) ∧
  (Js.trim (human_input (page w)) ≠ "" → isConnected (this w) = true →
     sent (browser (sendHumanInput w))
     = sent (browser w)
       ++ [ {| out_type := "human_input";
               out_content := Js.trim (human_input (page w)) |} ] ∧
     human_input (page (sendHumanInput w)) = "" ∧
     this (sendHumanInput w) = this w) ∧
  (Js.trim (interrupt_input (page w)) ≠ "" → isConnected (this w) = true →
     sent (browser (confirmInterrupt w))
     = sent (browser w)
       ++ [ {| out_type := "interrupt";
               out_content := Js.trim (interrupt_input (page w)) |} ] ∧
     interrupt_modal_hidden (page (confirmInterrupt w)) = true ∧
     interrupt_input (page (confirmInterrupt w)) = "" ∧
     this (confirmInterrupt w) = this w).
Proof.
  unfold sendHumanInput, confirmInterrupt.
  split; [|split; [|split]].
  - intros [->| ->]; [done|]. by rewrite orb_true_r.
  - intros [->| ->]; [done|]. by rewrite orb_true_r.
  - intros Hc ->. apply truthy_nonempty in Hc. by rewrite Hc.
  - intros Hc ->. apply truthy_nonempty in Hc. by rewrite Hc.
Qed.

Lemma input_is_guarded_witness :
  let offline := on_page (with_human_input "hello") sample_world in
  let blank := on_page (with_human_input "   ") (ws_onopen sample_world) in
  let ready := on_page (with_human_input " hello ") (ws_onopen sample_world) in
  let urgent :=
    on_page (with_interrupt_input "stop now")
      (showInterruptModal (ws_onopen sample_world)) in
  sendHumanInput offline = offline ∧
  sendHumanInput blank = blank ∧
  confirmInterrupt offline = offline ∧
  sent (browser (sendHumanInput ready))
  = sent (browser ready)
    ++ [ {| out_type := "human_input";
            out_content := Js.trim (human_input (page ready)) |} ] ∧
  human_input (page (sendHumanInput ready)) = "" ∧
  sent (browser (confirmInterrupt urgent))
  = sent (browser urgent)
    ++ [ {| out_type := "interrupt";
            out_content := Js.trim (interrupt_input (page urgent)) |} ] ∧
  interrupt_modal_hidden (page (confirmInterrupt urgent)) = true.
Proof.
  intros offline blank ready urgent.
  destruct (input_is_guarded offline) as (Hoff & Hoff' & _ & _).
  destruct (input_is_guarded blank) as (Hblank & _ & _ & _).
  destruct (input_is_guarded ready) as (_ & _ & Hready & _).
  destruct (input_is_guarded urgent) as (_ & _ & _ & Hurgent).
  assert (Hr : Js.trim (human_input (page ready)) ≠ "")
    by (vm_compute; intros Heq; discriminate Heq).
  assert (Hu : Js.trim (interrupt_input (page urgent)) ≠ "")
    by (vm_compute; intros Heq; discriminate Heq).
  split; [exact (Hoff (or_intror eq_refl))|].
  split; [exact (Hblank (or_introl eq_refl))|].
  split; [exact (Hoff' (or_intror eq_refl))|].
  split; [exact (proj1 (Hready Hr eq_refl))|].
  split; [exact (proj1 (proj2 (Hready Hr eq_refl)))|].
  split; [exact (proj1 (Hurgent Hu eq_refl))|].
  exact (proj1 (proj2 (Hurgent Hu eq_refl))).
Defined.

Example send_trims :
  sent (browser (sendHumanInput
                   (on_page (with_human_input " hello ")
                      (ws_onopen sample_world))))
  = [ {| out_type := "human_input"; out_content := "hello" |} ].
Proof. vm_compute. reflexivity. Qed.


(* ===================================================================== *)
(** ** Invariants of the event loop *)
(* ===================================================================== *)

Lemma page_rest_inv d1 d2 :
  page_rest d1 = page_rest d2 →
  timeline_view_hidden d1 = timeline_view_hidden d2 ∧
  timeline_messages d1 = timeline_messages d2 ∧
  buttons d1 = buttons d2 ∧
  connection_status d1 = connection_status d2 ∧
  human_input d1 = human_input d2 ∧
  interrupt_input d1 = interrupt_input d2 ∧
  interrupt_modal_hidden d1 = interrupt_modal_hidden d2.
Proof. unfold page_rest. intros [= -> -> -> -> -> -> ->]. done. Qed.

Lemma browser_rest_inv b1 b2 :
  browser_rest b1 = browser_rest b2 →
  console b1 = console b2 ∧ sent b1 = sent b2 ∧ sockets b1 = sockets b2.
Proof. unfold browser_rest. intros [= -> -> ->]. done. Qed.

(** *** Trimming *)

Lemma trimEnd_cons c s :
  Js.trimEnd (String c s)
  = match Js.trimEnd s with
    | EmptyString => if Js.is_space c then EmptyString else String c EmptyString
    | t => String c t
    end.
Proof. reflexivity. Qed.

Lemma trimEnd_idempotent s : Js.trimEnd (Js.trimEnd s) = Js.trimEnd s.
Proof.
  induction s as [|c s IH]; [done|].
  rewrite trimEnd_cons. destruct (Js.trimEnd s) as [|c' t] eqn:Ht.
  - destruct (Js.is_space c) eqn:Hc; [done|].
    rewrite trimEnd_cons. simpl. by rewrite Hc.
  - rewrite trimEnd_cons, IH. done.
Qed.

(** What [trimEnd] leaves of a string begins as the string does. *)
Lemma trimEnd_head c s :
  Js.is_space c = false → ∃ t, Js.trimEnd (String c s) = String c t.
Proof.
  intros Hc. rewrite trimEnd_cons.
  destruct (Js.trimEnd s); rewrite ?Hc; by eexists.
Qed.

Lemma trimStart_head s :
  Js.trimStart s = EmptyString ∨
  ∃ c t, Js.trimStart s = String c t ∧ Js.is_space c = false.
Proof.
  induction s as [|c s IH]; [by left|]. simpl.
  destruct (Js.is_space c) eqn:Hc; [done|]. right. by exists c, s.
Qed.

Lemma trim_idempotent s : Js.trim (Js.trim s) = Js.trim s.
Proof.
  unfold Js.trim.
  destruct (trimStart_head s) as [->|(c & t & -> & Hc)]; [done|].
  destruct (trimEnd_head c t Hc) as [t' Ht']. rewrite Ht'.
  simpl. rewrite Hc. rewrite <- Ht'. apply trimEnd_idempotent.
Qed.

(** *** Lists of timers *)

Lemma filter_delete_length {A} (P : A → Prop) `{∀ x, Decision (P x)}
    (l : list A) i x :
  l !! i = Some x →
  length (filter P l)
  = length (filter P (delete i l)) + (if decide (P x) then 1 else 0).
Proof.
  revert i. induction l as [|y l IH]; intros [|i] Hi; simplify_eq/=.
  - rewrite filter_cons. case_decide; simpl; lia.
  - rewrite !filter_cons. pose proof (IH i Hi).
    repeat case_decide; simpl; lia.
Qed.


Section Loop.
Variable marked_parse : string → string.
Variable toLocaleTimeString : Z → string.
Variable JSON_parse : string → option data.

Abbreviation handler := (react marked_parse toLocaleTimeString JSON_parse).
Abbreviation ingest := (addMessage marked_parse toLocaleTimeString).
Abbreviation ingest_all := (forEach_addMessage marked_parse toLocaleTimeString).
Abbreviation after :=
  (session_after marked_parse toLocaleTimeString JSON_parse).

Lemma app_foldl_dispatch es s :
  app (foldl (λ s e, dispatch marked_parse toLocaleTimeString JSON_parse e s) s es)
  = foldl (λ w e, handler e w) (app s) es.
Proof. revert s. induction es as [|e es IH]; intros s; simpl; [done|]. by rewrite IH. Qed.

Lemma app_session_after d b es :
  app (after d b es) = foldl (λ w e, handler e w) (constructor d) es.
Proof. unfold session_after. by rewrite app_foldl_dispatch. Qed.

(** An invariant of the handlers holds after any list of events. *)
Lemma invariant_after (P : world → Prop) d b :
  P (constructor d) → (∀ e w, P w → P (handler e w)) →
  ∀ es, P (app (after d b es)).
Proof.
  intros Hinit Hstep es. rewrite app_session_after.
  generalize (constructor d) Hinit. induction es as [|e es IH]; intros w Hw; simpl; [done|].
  apply IH. by apply Hstep.
Qed.

(** What a frame does: it ingests a list of messages, or prints one
    line. *)
Lemma receive_cases event_data w :
  (∃ l, handler (socket_message event_data) w = ingest_all l w) ∨
  (∃ t, handler (socket_message event_data) w
        = print (console_log_type "未知消息类型:" t) w).
Proof.
  simpl. unfold ws_onmessage.
  destruct (JSON_parse event_data) as [[|[l|]|m|t]|]; simpl.
  - left. by exists [].
  - left. exists l. by destruct l.
  - left. by exists [].
  - left. by exists [m].
  - right. by exists t.
  - left. by exists [].
Qed.


(** What a timer does when it fires. *)
Lemma fire_cases i w :
  (timers (browser w) !! i = None ∧ fire i w = w) ∨
  (∃ d, timers (browser w) !! i = Some {| callback := reconnect; delay := d |} ∧
        fire i w
        = setupWebSocket
            (print (console_log "尝试重新连接...")
               (on_browser (with_timers (delete i)) w))) ∨
  (∃ r c d,
     timers (browser w) !! i = Some {| callback := remove_class r c; delay := d |} ∧
     fire i w
     = on_column r (remove_classes [c]) (on_browser (with_timers (delete i)) w)).
Proof.
  unfold fire. destruct (timers (browser w) !! i) as [[[|r c] d]|]; simpl.
  - right; left. by exists d.
  - right; right. by exists r, c, d.
  - by left.
Qed.

Lemma browser_updateColumnLayout w : browser (updateColumnLayout w) = browser w.
Proof.
  unfold updateColumnLayout, apply_emphasis.
  repeat (case_match; simpl; try done).
Qed.

Lemma page_rest_setUserSelectedColumn r w :
  page_rest (page (setUserSelectedColumn r w)) = page_rest (page w).
Proof.
  unfold setUserSelectedColumn.
  transitivity
    (page_rest
       (page (updateColumnLayout
                (on_this (with_userSelectedColumn (Some r)) w))));
    [done | exact (page_rest_updateColumnLayout _)].
Qed.

Lemma browser_setUserSelectedColumn r w :
  browser (setUserSelectedColumn r w) = browser w.
Proof.
  unfold setUserSelectedColumn.
  transitivity
    (browser (updateColumnLayout
                (on_this (with_userSelectedColumn (Some r)) w)));
    [done | exact (browser_updateColumnLayout _)].
Qed.

(** *** Controls and connection *)

(** Only the opening and the loss of the channel touch the liveness flag,
    the controls and the status line. *)
Lemma connection_untouched e w :
  e ≠ socket_open → e ≠ socket_close →
  isConnected (this (handler e w)) = isConnected (this w) ∧
  buttons (page (handler e w)) = buttons (page w) ∧
  connection_status (page (handler e w)) = connection_status (page w).
Proof.
  intros Ho Hc.
  assert (Hingest : ∀ m w0,
    isConnected (this (ingest m w0)) = isConnected (this w0) ∧
    buttons (page (ingest m w0)) = buttons (page w0) ∧
    connection_status (page (ingest m w0)) = connection_status (page w0)).
  { intros m w0.
    pose proof (page_rest_addMessage marked_parse toLocaleTimeString m w0) as Hr.
    destruct (page_rest (page w0)) as [[[[[[h tl] b] s] hi] ii] mh] eqn:Hw.
    unfold page_rest in Hr, Hw. injection Hr as _ _ -> -> _ _ _.
    injection Hw as _ _ <- <- _ _ _. by rewrite this_addMessage. }
  destruct e; try done.
  - destruct (receive_cases event_data w) as [[l ->]|[t ->]]; [|done].
    revert w. induction l as [|m l IH]; intros w; [done|].
    change (ingest_all (m :: l) w) with (ingest_all l (ingest m w)).
    destruct (IH (ingest m w)) as (-> & -> & ->). apply Hingest.
  - unfold react.
    destruct (fire_cases i w) as [[_ ->]|[(d & _ & ->)|(r & c & d & _ & ->)]];
      done.
  - simpl. unfold sendHumanInput. by case_match.
  - simpl. unfold human_input_keydown, sendHumanInput.
    repeat (case_match; simpl; try done).
  - simpl. unfold confirmInterrupt. by case_match.
  - simpl. by case_match.
  - simpl. unfold toggleTimelineView. by case_match.
  - simpl. by case_match.
  - simpl. unfold column_click. repeat (case_match; try done).
    pose proof (page_rest_inv _ _ (page_rest_setUserSelectedColumn r w))
      as (_ & _ & -> & -> & _).
    by rewrite this_setUserSelectedColumn.
Qed.

Lemma controls_follow_connection_step e w :
  controls_follow_connection w → controls_follow_connection (handler e w).
Proof.
  intros Hw.
  destruct (decide (e = socket_open)) as [->|Ho]; [done|].
  destruct (decide (e = socket_close)) as [->|Hc]; [done|].
  destruct (connection_untouched e w Ho Hc) as (Hi & Hb & Hs).
  unfold controls_follow_connection. by rewrite Hi, Hb, Hs.
Qed.

(** X1.  After any list of events the send button, the interrupt button
    and the input box are disabled exactly when the liveness flag is
    false, and the status line shows the state of the flag. *)
Theorem controls_always_follow_connection d b es :
  controls_follow_connection (app (after d b es)).
Proof.
  apply (invariant_after controls_follow_connection); [done|].
  apply controls_follow_connection_step.
Qed.

(** *** The store, the columns and the log *)


(** Only a frame touches the store and what the columns show. *)
Lemma store_untouched e w :
  (∀ x, e ≠ socket_message x) →
  messages (this (handler e w)) = messages (this w) ∧
  messageCounts (this (handler e w)) = messageCounts (this w) ∧
  lastMessageColumn (this (handler e w)) = lastMessageColumn (this w) ∧
  column_view <$> columns (page (handler e w))
  = column_view <$> columns (page w).
Proof.
  intros He. destruct e; try done.
  - by destruct (He event_data).
  - unfold react.
    destruct (fire_cases i w) as [[_ ->]|[(d & _ & ->)|(r & c & d & _ & ->)]];
      try done.
    repeat split; try done. simpl. unfold remove_classes.
    by rewrite column_view_classes.
  - simpl. unfold sendHumanInput. by case_match.
  - simpl. unfold human_input_keydown, sendHumanInput.
    repeat (case_match; simpl; try done).
  - simpl. unfold confirmInterrupt. by case_match.
  - simpl. by case_match.
  - simpl. unfold toggleTimelineView. by case_match.
  - simpl. by case_match.
  - simpl. unfold column_click. repeat (case_match; try done).
    rewrite this_setUserSelectedColumn. repeat split; try done.
    unfold setUserSelectedColumn. simpl. unfold add_classes.
    by rewrite column_view_classes, columns_updateColumnLayout_view.
Qed.

Lemma messages_ingest_all l w :
  messages (this (ingest_all l w)) = messages (this w) ++ l.
Proof. apply messages_forEach_addMessage. Qed.

(** X2.  The log is append-only: whatever events follow, the log they
    leave is the earlier log with entries added at its end. *)
Theorem log_is_append_only d b es1 es2 :
  let log es :=
    messages
      (this (app (session_after marked_parse toLocaleTimeString JSON_parse
                    d b es))) in
  ∃ l, log (es1 ++ es2) = log es1 ++ l.
Proof.
  intros log. unfold log. clear log.
  rewrite !app_session_after, foldl_app.
  generalize (foldl (λ w e, handler e w) (constructor d) es1) as w.
  induction es2 as [|e es2 IH]; intros w; simpl.
  - exists []. by rewrite app_nil_r.
  - destruct (IH (handler e w)) as [l ->].
    assert (∃ l0, messages (this (handler e w)) = messages (this w) ++ l0)
      as [l0 ->].
    { destruct e; try (exists []; rewrite app_nil_r;
                       by apply store_untouched).
      destruct (receive_cases event_data w) as [[l0 ->]|[t ->]].
      - exists l0. apply messages_ingest_all.
      - exists []. by rewrite app_nil_r. }
    exists (l0 ++ l). by rewrite app_assoc.
Qed.

Lemma constructor_page d :
  columns (page (constructor d)) = columns d ∧
  container (page (constructor d)) = container d ∧
  timeline_view_hidden (page (constructor d)) = timeline_view_hidden d ∧
  timeline_messages (page (constructor d)) = timeline_messages d ∧
  timers (browser (constructor d)) = [] ∧
  sent (browser (constructor d)) = [] ∧
  sockets (browser (constructor d)) = 1 ∧
  ws (this (constructor d)) = 1 ∧
  userSelectedColumn (this (constructor d)) = None ∧
  lastMessageColumn (this (constructor d)) = None ∧
  isComposing (this (constructor d)) = false.
Proof. done. Qed.




(** *** The timeline *)




(** *** The focus state *)





(** *** The traffic *)

(** Only a click on the send button, a key in the input box and a click
    on the confirmation of the interrupt can send. *)
Lemma sent_untouched e w :
  e ≠ send_btn_click → e ≠ interrupt_confirm_click →
  (∀ k s, e ≠ keydown k s) →
  sent (browser (handler e w)) = sent (browser w).
Proof.
  intros Hs Hc Hk. destruct e; try done.
  - destruct (receive_cases event_data w) as [[l ->]|[t ->]]; [|done].
    revert w. induction l as [|m l IH]; intros w; [done|].
    change (ingest_all (m :: l) w) with (ingest_all l (ingest m w)).
    rewrite IH.
    by destruct (browser_rest_inv _ _
                   (browser_rest_addMessage marked_parse toLocaleTimeString m w))
      as (_ & -> & _).
  - unfold react.
    destruct (fire_cases i w) as [[_ ->]|[(d & _ & ->)|(r & c & d & _ & ->)]];
      done.
  - by destruct (Hk key shiftKey).
  - simpl. by case_match.
  - simpl. unfold toggleTimelineView. by case_match.
  - simpl. by case_match.
  - simpl. unfold column_click. repeat (case_match; try done).
    by rewrite browser_setUserSelectedColumn.
Qed.

(** What the two senders add to the traffic. *)
Lemma sent_sendHumanInput w :
  sent (browser (sendHumanInput w)) = sent (browser w) ∨
  (Js.trim (human_input (page w)) ≠ "" ∧
   sent (browser (sendHumanInput w))
   = sent (browser w)
     ++ [ {| out_type := "human_input";
             out_content := Js.trim (human_input (page w)) |} ]).
Proof.
  unfold sendHumanInput.
  destruct (Js.truthy (Js.trim (human_input (page w)))) eqn:Ht; [|by left].
  destruct (isConnected (this w)); [|by left].
  right. split; [by apply truthy_nonempty | done].
Qed.

Lemma sent_confirmInterrupt w :
  sent (browser (confirmInterrupt w)) = sent (browser w) ∨
  (Js.trim (interrupt_input (page w)) ≠ "" ∧
   sent (browser (confirmInterrupt w))
   = sent (browser w)
     ++ [ {| out_type := "interrupt";
             out_content := Js.trim (interrupt_input (page w)) |} ]).
Proof.
  unfold confirmInterrupt.
  destruct (Js.truthy (Js.trim (interrupt_input (page w)))) eqn:Ht; [|by left].
  destruct (isConnected (this w)); [|by left].
  right. split; [by apply truthy_nonempty | done].
Qed.

Lemma sent_human_input_keydown key shiftKey w :
  sent (browser (human_input_keydown key shiftKey w)) = sent (browser w) ∨
  human_input_keydown key shiftKey w = sendHumanInput w.
Proof.
  unfold human_input_keydown. repeat (case_match; try (by left)); by right.
Qed.

(** X6.  After any list of events every envelope that was sent is of type
    [human_input] or [interrupt] and carries a content that is not empty
    and has no white space at either end. *)
Theorem traffic_is_trimmed d b es :
  Forall
    (λ e, (out_type e = "human_input" ∨ out_type e = "interrupt") ∧
          out_content e ≠ "" ∧ Js.trim (out_content e) = out_content e)
    (sent (browser (app (after d b es)))).
Proof.
  apply (invariant_after
           (λ w, Forall
                   (λ e, (out_type e = "human_input" ∨ out_type e = "interrupt") ∧
                         out_content e ≠ "" ∧
                         Js.trim (out_content e) = out_content e)
                   (sent (browser w)))).
  { by apply Forall_nil. }
  intros e w Hw.
  assert (Hsend : Forall
            (λ e, (out_type e = "human_input" ∨ out_type e = "interrupt") ∧
                  out_content e ≠ "" ∧ Js.trim (out_content e) = out_content e)
            (sent (browser (sendHumanInput w)))).
  { destruct (sent_sendHumanInput w) as [->|[Hne ->]]; [done|].
    apply Forall_app. split; [done|]. apply Forall_singleton. simpl.
    split; [by left|]. split; [done | apply trim_idempotent]. }
  destruct (decide (e = send_btn_click)) as [->|Hs]; [done|].
  destruct (decide (e = interrupt_confirm_click)) as [->|Hc].
  { simpl. destruct (sent_confirmInterrupt w) as [->|[Hne ->]]; [done|].
    apply Forall_app. split; [done|]. apply Forall_singleton. simpl.
    split; [by right|]. split; [done | apply trim_idempotent]. }
  destruct e; try (by rewrite sent_untouched).
  simpl. destruct (sent_human_input_keydown key shiftKey w) as [->| ->]; done.
Qed.

(** *** Timers and sockets *)

(** The timers [addMessage] schedules take transient classes off. *)
Lemma timers_ingest m w :
  ∃ extra,
    timers (browser (ingest m w)) = timers (browser w) ++ extra ∧
    Forall
      (λ t, ∃ r c, callback t = remove_class r c ∧
                   c ∈ ["new-message"; "recently-active"])
      extra.
Proof.
  unfold addMessage, playNotificationSound.
  set (w2 := on_this _ (on_this _ w)).
  set (w3 := renderMessageInColumn _ _ m w2).
  set (w4 := updateMessageCount (role m) w3).
  assert (H3 : ∃ e3, timers (browser w3) = timers (browser w) ++ e3 ∧
                     Forall
                       (λ t, ∃ r c, callback t = remove_class r c ∧
                                    c ∈ ["new-message"; "recently-active"]) e3).
  { subst w3. unfold renderMessageInColumn.
    destruct (columns (page w2) !! role m).
    - eexists. split; [reflexivity|]. apply Forall_singleton.
      exists (role m), "new-message". split; [done | by repeat constructor].
    - exists []. by rewrite app_nil_r. }
  destruct H3 as (e3 & H3 & Hf3).
  assert (H5 : ∃ e5, timers (browser (setLastMessageColumn (role m) w4))
                     = timers (browser w4) ++ e5 ∧
                     Forall
                       (λ t, ∃ r c, callback t = remove_class r c ∧
                                    c ∈ ["new-message"; "recently-active"]) e5).
  { unfold setLastMessageColumn.
    set (w5 := updateColumnLayout _).
    assert (Hb : timers (browser w5) = timers (browser w4))
      by (subst w5; by rewrite browser_updateColumnLayout).
    destruct (columns (page w5) !! role m).
    - eexists. simpl. rewrite Hb. split; [reflexivity|].
      apply Forall_singleton.
      exists (role m), "recently-active".
      split; [done | by repeat constructor].
    - exists []. by rewrite app_nil_r. }
  destruct H5 as (e5 & H5 & Hf5).
  exists (e3 ++ e5). split.
  - transitivity (timers (browser (setLastMessageColumn (role m) w4))).
    { by destruct (negb _). }
    rewrite H5. change (timers (browser w4)) with (timers (browser w3)).
    by rewrite H3, app_assoc.
  - by apply Forall_app.
Qed.

Lemma ws_ingest m w :
  ws (this (ingest m w)) = ws (this w) ∧
  sockets (browser (ingest m w)) = sockets (browser w).
Proof.
  rewrite this_addMessage. split; [done|].
  by destruct (browser_rest_inv _ _
                 (browser_rest_addMessage marked_parse toLocaleTimeString m w))
    as (_ & _ & ->).
Qed.

Lemma pending_reconnects_ingest m w :
  pending_reconnects (ingest m w) = pending_reconnects w.
Proof.
  unfold pending_reconnects.
  destruct (timers_ingest m w) as (extra & -> & Hextra).
  rewrite filter_app, length_app.
  replace (filter (λ t, callback t = reconnect) extra) with (@nil timer);
    [simpl; lia|].
  symmetry. clear -Hextra. induction Hextra as [|t l (r & c & Ht & _) _ IH];
    [done|].
  rewrite filter_cons, decide_False by congruence. done.
Qed.

(** Each event keeps the sum of the sockets opened and the reconnects
    pending, but for a loss, which adds one. *)
Lemma reconnects_step e w :
  sockets (browser (handler e w)) + pending_reconnects (handler e w)
  = sockets (browser w) + pending_reconnects w
    + (if decide (e = socket_close) then 1 else 0) ∧
  (ws (this w) = sockets (browser w) →
   ws (this (handler e w)) = sockets (browser (handler e w))).
Proof.
  destruct e; rewrite ?decide_False by done; rewrite ?Nat.add_0_r.
  all: try (split; [reflexivity | done]).
  - destruct (receive_cases event_data w) as [[l ->]|[t ->]];
      [|split; [reflexivity | done]].
    revert w. induction l as [|m l IH]; intros w; [done|].
    change (ingest_all (m :: l) w) with (ingest_all l (ingest m w)).
    destruct (IH (ingest m w)) as [-> Hws].
    destruct (ws_ingest m w) as [Hw Hs].
    rewrite pending_reconnects_ingest, Hs. split; [done|].
    intros Heq. apply Hws. by rewrite Hw, Hs.
  - rewrite decide_True by done. split; [|done].
    unfold pending_reconnects. simpl.
    rewrite filter_app, length_app. simpl. lia.
  - unfold react, pending_reconnects.
    destruct (fire_cases i w) as [[_ ->]|[(d & Hi & ->)|(r & c & d & Hi & ->)]];
      [done| |]; simpl;
      rewrite (filter_delete_length _ (timers (browser w)) i _ Hi); simpl.
    + split; [lia | done].
    + split; [lia | done].
  - simpl. unfold sendHumanInput. case_match; split; (reflexivity || done).
  - simpl. unfold human_input_keydown, sendHumanInput.
    repeat (case_match; simpl; try done).
  - simpl. unfold confirmInterrupt. case_match; split; (reflexivity || done).
  - simpl. case_match; split; (reflexivity || done).
  - simpl. unfold toggleTimelineView. case_match; split; (reflexivity || done).
  - simpl. case_match; split; (reflexivity || done).
  - simpl. unfold column_click, pending_reconnects.
    repeat (case_match; try done).
    by rewrite browser_setUserSelectedColumn, this_setUserSelectedColumn.
Qed.

(** X7.  Every loss of the channel leads to exactly one attempt to
    reconnect, none lost and none doubled: after any list of events, the
    sockets opened so far and the reconnects still pending add up to one
    more than the losses, and [this.ws] is the socket opened last. *)
Theorem one_reconnect_per_loss d b es :
  let w := app (after d b es) in
  sockets (browser w) + pending_reconnects w = 1 + losses es ∧
  ws (this w) = sockets (browser w).
Proof.
  simpl. rewrite app_session_after.
  induction es as [|e es IH] using rev_ind; [done|].
  rewrite foldl_snoc. destruct IH as [IHs IHw].
  destruct (reconnects_step e (foldl (λ w e, handler e w) (constructor d) es))
    as [-> Hws].
  split; [|by apply Hws].
  rewrite IHs. unfold losses. rewrite filter_app, length_app, filter_cons.
  repeat case_decide; simpl; try done; lia.
Qed.

(** *** The hint under the input box *)

Lemma composing_untouched e w :
  e ≠ compositionstart → e ≠ compositionend →
  isComposing (this (handler e w)) = isComposing (this w).
Proof.
  intros Hs He. destruct e; try done.
  - destruct (receive_cases event_data w) as [[l ->]|[t ->]]; [|done].
    revert w. induction l as [|m l IH]; intros w; [done|].
    change (ingest_all (m :: l) w) with (ingest_all l (ingest m w)).
    by rewrite IH, this_addMessage.
  - unfold react.
    destruct (fire_cases i w) as [[_ ->]|[(d & _ & ->)|(r & c & d & _ & ->)]];
      done.
  - simpl. unfold sendHumanInput. by case_match.
  - simpl. unfold human_input_keydown, sendHumanInput.
    repeat (case_match; simpl; try done).
  - simpl. unfold confirmInterrupt. by case_match.
  - simpl. by case_match.
  - simpl. unfold toggleTimelineView. by case_match.
  - simpl. by case_match.
  - simpl. unfold column_click. repeat (case_match; try done).
    by rewrite this_setUserSelectedColumn.
Qed.

Lemma updateInputHint_shape composing box :
  last (hints (updateInputHint composing box))
  = Some (if composing
          then {| hint_text := "输入法组合中... (Shift+Enter 发送)";
                  hint_color := "#f59e0b" |}
          else {| hint_text := "Enter 发送, Shift+Enter 换行";
                  hint_color := "#666" |}) ∧
  send_btn_text (updateInputHint composing box)
  = (if composing then "Shift+Enter 发送" else "发送 (Enter)") ∧
  length (hints (updateInputHint composing box)) = max 1 (length (hints box)).
Proof.
  unfold updateInputHint.
  destruct composing, (hints box) as [|h l]; simpl;
    rewrite ?last_snoc, ?length_app; simpl; repeat split; lia.
Qed.

(** X8.  The composition hint neither piles up nor goes stale: after any
    list of events the input container holds as many hints as the markup
    had, or one if it had none, the last of them is the hint for the
    current composition state, and the label of the send button is the
    one for that state. *)
Theorem hint_follows_composition d b es :
  let s := session_after marked_parse toLocaleTimeString JSON_parse d b es in
  let composing := isComposing (this (app s)) in
  last (hints (input_container s))
  = Some (if composing
          then {| hint_text := "输入法组合中... (Shift+Enter 发送)";
                  hint_color := "#f59e0b" |}
          else {| hint_text := "Enter 发送, Shift+Enter 换行";
                  hint_color := "#666" |}) ∧
  send_btn_text (input_container s)
  = (if composing then "Shift+Enter 发送" else "发送 (Enter)") ∧
  length (hints (input_container s)) = max 1 (length (hints b)).
Proof.
  simpl. unfold session_after.
  induction es as [|e es IH] using rev_ind.
  - simpl. apply (updateInputHint_shape false b).
  - rewrite foldl_snoc.
    set (s := foldl _ _ es) in *. destruct IH as (Hl & Ht & Hn).
    destruct (decide (e = compositionstart)) as [->|Hs].
    { destruct (updateInputHint_shape true (input_container s))
        as (H1 & H2 & H3).
      split; [exact H1|]. split; [exact H2|].
      etrans; [exact H3|]. rewrite Hn. lia. }
    destruct (decide (e = compositionend)) as [->|He].
    { destruct (updateInputHint_shape false (input_container s))
        as (H1 & H2 & H3).
      split; [exact H1|]. split; [exact H2|].
      etrans; [exact H3|]. rewrite Hn. lia. }
    replace (input_container (dispatch marked_parse toLocaleTimeString
                                JSON_parse e s))
      with (input_container s) by (by destruct e).
    change (app (dispatch marked_parse toLocaleTimeString JSON_parse e s))
      with (handler e (app s)).
    by rewrite composing_untouched.
Qed.

(** *** The layout *)











End Loop.





(** What the sample session leaves behind. *)
Example sample_session_state :
  let w := app sample_session in
  messages (this w) = [sample_message "programmer_ai" "some code" 1] ∧
  userSelectedColumn (this w) = Some "architect_ai" ∧
  lastMessageColumn (this w) = Some "programmer_ai" ∧
  isConnected (this w) = false ∧
  pending_reconnects w = 1 ∧
  losses sample_events = 1 ∧
  send_btn_text (input_container sample_session) = "Shift+Enter 发送".
Proof. vm_compute. repeat split; reflexivity. Qed.


(* ===================================================================== *)
(** ** What the heuristics detect *)
(* ===================================================================== *)

Lemma append_assoc s1 s2 s3 : (s1 +:+ s2) +:+ s3 = s1 +:+ (s2 +:+ s3).
Proof.
  induction s1 as [|c s1 IH]; [done|].
  rewrite !RegExpFacts.append_cons. by rewrite IH.
Qed.

Lemma contains_char_app cs s1 s2 :
  contains_char cs (s1 +:+ s2) = contains_char cs s1 || contains_char cs s2.
Proof.
  induction s1 as [|c s1 IH]; [done|].
  rewrite RegExpFacts.append_cons. simpl. by rewrite IH, orb_assoc.
Qed.

Lemma class_within_sound cs k c :
  class_within cs k = true → RegExp.in_class k c = true →
  bool_decide (c ∈ cs) = true.
Proof.
  destruct k as [a| | | | |l]; simpl; try done.
  - intros Ha Hc. apply bool_decide_eq_true_1 in Hc as <-. done.
  - rewrite forallb_forall. intros Hl Hc.
    apply bool_decide_eq_true_1, list_elem_of_In in Hc. by apply Hl.
Qed.

(** [needs_char] is sound: a match of the expression holds one of the
    characters. *)
Lemma needs_char_sound cs r s :
  needs_char cs r = true → RegExp.matches r s → contains_char cs s = true.
Proof.
  intros Hn Hm. induction Hm as [|k c Hk|r1 r2 s1 s2 _ IH1 _ IH2|r1 r2 s _ IH
                                |r1 r2 s _ IH|r|r c s1 s2 _ _ _ _];
    simpl in Hn; try done.
  - simpl. by rewrite (class_within_sound cs k c).
  - rewrite contains_char_app. apply orb_true_iff in Hn as [H|H].
    + by rewrite IH1.
    + rewrite IH2 by done. apply orb_true_r.
  - apply andb_true_iff in Hn as [H _]. by apply IH.
  - apply andb_true_iff in Hn as [_ H]. by apply IH.
Qed.

Lemma markdownPatterns_need_marker :
  forallb (λ p, needs_char markdown_markers (RegExp.body p)) markdownPatterns
  = true.
Proof. vm_compute. reflexivity. Qed.

Lemma containsMarkdown_needs_marker text :
  containsMarkdown text = true → contains_char markdown_markers text = true.
Proof.
  rewrite containsMarkdown_true. intros (p & Hp & Ht).
  apply RegExpFacts.test_spec in Ht as (pre & mid & post & -> & Hm & _).
  rewrite !contains_char_app.
  pose proof markdownPatterns_need_marker as Hall.
  rewrite forallb_forall in Hall.
  rewrite (needs_char_sound _ _ _ (Hall p (proj1 (list_elem_of_In _ _) Hp)) Hm).
  by rewrite orb_true_r.
Qed.

Section PlainText.
Variable marked_parse : string → string.
Variable toLocaleTimeString : Z → string.

(** X10.  A message whose content holds none of the characters
    [# * ` - + . [ > |] is never taken for markdown: whatever its role and
    whatever the converter, its content is set as text, in the column and
    in the timeline. *)
Theorem plain_text_stays_text (m : Message) :
  contains_char markdown_markers (content m) = false →
  containsMarkdown (content m) = false ∧
  message_content (createMessageElement marked_parse toLocaleTimeString m)
  = textContent (content m) ∧
  timeline_message_content
    (createTimelineMessageElement marked_parse toLocaleTimeString m)
  = textContent (content m).
Proof.
  intros Hplain.
  assert (Hno : containsMarkdown (content m) = false).
  { destruct (containsMarkdown (content m)) eqn:Hc; [|done].
    apply containsMarkdown_needs_marker in Hc. congruence. }
  split; [done|]. simpl. by rewrite Hno, andb_false_r.
Qed.

End PlainText.

Lemma plain_text_stays_text_witness :
  let m := sample_message "ether" "All good, shall we go on" 5 in
  contains_char markdown_markers (content m) = false ∧
  containsMarkdown (content m) = false ∧
  message_content (createMessageElement sample_marked sample_clock m)
  = textContent (content m) ∧
  timeline_message_content
    (createTimelineMessageElement sample_marked sample_clock m)
  = textContent (content m).
Proof.
  intros m.
  assert (H : contains_char markdown_markers (content m) = false)
    by (vm_compute; reflexivity).
  split; [exact H|].
  exact (plain_text_stays_text sample_marked sample_clock m H).
Defined.

(** A match found further on is found. *)
Lemma search_skip p before pre s :
  RegExp.line_start p = false →
  RegExp.matches_prefix (RegExp.body p) s = true →
  RegExp.search p before (pre +:+ s) = true.
Proof.
  intros Hl Hm. revert before. induction pre as [|c pre IH]; intros before.
  - rewrite RegExpFacts.append_nil_l. destruct s as [|c s].
    + by rewrite RegExpFacts.search_nil, Hl, Hm.
    + by rewrite RegExpFacts.search_cons, Hl, Hm.
  - rewrite RegExpFacts.append_cons, RegExpFacts.search_cons, IH.
    apply orb_true_r.
Qed.

Lemma matches_prefix_extend r s1 s2 :
  RegExp.matches r s1 → RegExp.matches_prefix r (s1 +:+ s2) = true.
Proof.
  intros Hm. apply RegExpFacts.matches_prefix_spec. by exists s1, s2.
Qed.

Lemma matches_prefix_monotone r s1 s2 :
  RegExp.matches_prefix r s1 = true →
  RegExp.matches_prefix r (s1 +:+ s2) = true.
Proof.
  rewrite !RegExpFacts.matches_prefix_spec. intros (a & b & -> & Hm).
  exists a, (b +:+ s2). by rewrite append_assoc.
Qed.

Lemma matches_star_dot s :
  single_line s = true → RegExp.matches (RegExp.star (RegExp.chr RegExp.dot)) s.
Proof.
  induction s as [|c s IH]; simpl; [constructor|].
  intros [Hc Hs]%andb_true_iff.
  change (String c s) with (String c "" +:+ s).
  constructor; [by constructor | by apply IH].
Qed.

(** A pair of the same character with nothing but one line between. *)
Lemma matches_pair c mid :
  single_line mid = true →
  RegExp.matches
    (RegExp.seq (RegExp.chr (RegExp.lit c))
       (RegExp.seq (RegExp.star (RegExp.chr RegExp.dot))
          (RegExp.chr (RegExp.lit c))))
    (String c (mid +:+ String c "")).
Proof.
  intros Hmid.
  change (String c (mid +:+ String c "")) with (String c "" +:+ (mid +:+ String c "")).
  constructor.
  - constructor. simpl. by apply bool_decide_eq_true_2.
  - constructor; [by apply matches_star_dot|].
    constructor. simpl. by apply bool_decide_eq_true_2.
Qed.

(** X11.  Three triggers of the heuristics, wherever they stand in the
    content: a run of three hyphens, two asterisks with no line break
    between them, and two backquotes with no line break between them.  So
    an agent message such as [2 * 3 * 4] is handed to the converter. *)
Theorem markers_trigger_markdown (pre mid post : string) :
  containsMarkdown (pre +:+ "---" +:+ post) = true ∧
  (single_line mid = true →
   containsMarkdown (pre +:+ "*" +:+ mid +:+ "*" +:+ post) = true ∧
   containsMarkdown (pre +:+ "`" +:+ mid +:+ "`" +:+ post) = true).
Proof.
  split; [|intros Hmid; split].
  - apply containsMarkdown_true. eexists. split.
    { unfold markdownPatterns. do 10 apply list_elem_of_further.
      apply list_elem_of_here. }
    apply search_skip; [done|].
    apply (matches_prefix_monotone _ "---" post). by vm_compute.
  - apply containsMarkdown_true. eexists. split.
    { unfold markdownPatterns. do 2 apply list_elem_of_further.
      apply list_elem_of_here. }
    apply search_skip; [done|]. simpl RegExp.body.
    change ("*" +:+ mid +:+ "*" +:+ post)
      with (String "*" (mid +:+ (String "*" "" +:+ post))).
    rewrite <- append_assoc.
    change (String "*" ((mid +:+ String "*" "") +:+ post))
      with (String "*" (mid +:+ String "*" "") +:+ post).
    apply matches_prefix_extend. by apply matches_pair.
  - apply containsMarkdown_true. eexists. split.
    { unfold markdownPatterns. do 3 apply list_elem_of_further.
      apply list_elem_of_here. }
    apply search_skip; [done|]. simpl RegExp.body.
    change ("`" +:+ mid +:+ "`" +:+ post)
      with (String "`" (mid +:+ (String "`" "" +:+ post))).
    rewrite <- append_assoc.
    change (String "`" ((mid +:+ String "`" "") +:+ post))
      with (String "`" (mid +:+ String "`" "") +:+ post).
    apply matches_prefix_extend. by apply matches_pair.
Qed.

Lemma markers_trigger_markdown_witness :
  single_line " 3 " = true ∧
  containsMarkdown ("2 " +:+ "*" +:+ " 3 " +:+ "*" +:+ " 4") = true ∧
  containsMarkdown ("a" +:+ "---" +:+ "b") = true.
Proof.
  assert (H : single_line " 3 " = true) by reflexivity.
  split; [exact H|]. split.
  - exact (proj1 (proj2 (markers_trigger_markdown "2 " " 3 " " 4") H)).
  - exact (proj1 (markers_trigger_markdown "a" "" "b")).
Defined.


(* ===================================================================== *)
(** ** The white space between tags *)
(* ===================================================================== *)

Lemma has_gap_cons q c s :
  has_gap q (String c s)
  = match q with
    | gap_spaces => bool_decide (c = "<"%char) || has_gap (gap_step q c) s
    | _ => has_gap (gap_step q c) s
    end.
Proof. reflexivity. Qed.

(** The recogniser finds every gap. *)
Lemma has_gap_complete q pre ws post :
  ws ≠ "" → all_space ws = true →
  has_gap q (pre +:+ ">" +:+ ws +:+ "<" +:+ post) = true.
Proof.
  intros Hne Hws.
  assert (Hrun : ∀ q', q' ≠ gap_none → ∀ t,
    all_space t = true →
    has_gap q' (t +:+ "<" +:+ post) = true ∨
    (t = "" ∧ q' = gap_open)).
  { intros q' Hq' t. revert q' Hq'. induction t as [|c t IH]; intros q' Hq' Ht.
    - destruct q'; [done | by right | by left].
    - left. simpl in Ht. apply andb_true_iff in Ht as [Hc Ht].
      rewrite RegExpFacts.append_cons, has_gap_cons.
      assert (Hstep : gap_step q' c = gap_spaces).
      { unfold gap_step. rewrite Hc.
        case_bool_decide as Hgt; [by subst c|]. by destruct q'. }
      rewrite Hstep.
      destruct (IH gap_spaces) as [Hg|[_ Hg]]; try done.
      destruct q'; rewrite ?Hg; try done; try apply orb_true_r. }
  revert q. induction pre as [|c pre IH]; intros q.
  - rewrite RegExpFacts.append_nil_l.
    change (">" +:+ ws +:+ "<" +:+ post)
      with (String ">" (ws +:+ "<" +:+ post)).
    rewrite has_gap_cons.
    assert (Hstep : gap_step q ">" = gap_open) by done. rewrite Hstep.
    destruct (Hrun gap_open) with (t := ws) as [Hg|[Hg _]]; try done.
    destruct q; rewrite ?Hg; try done; try apply orb_true_r.
  - rewrite RegExpFacts.append_cons, has_gap_cons, IH.
    destruct q; try done; try apply orb_true_r.
Qed.

(** After a [>] the scan stands in [gap_open], wherever it stood. *)
Lemma has_gap_after_gt q s :
  has_gap q (String ">" s) = has_gap gap_open s.
Proof. rewrite has_gap_cons. by destruct q. Qed.

Lemma has_gap_spaces_then_gt q ws s :
  all_space ws = true →
  has_gap q (ws +:+ String ">" s) = has_gap gap_open s.
Proof.
  revert q. induction ws as [|c ws IH]; intros q Hws.
  - apply has_gap_after_gt.
  - simpl in Hws. apply andb_true_iff in Hws as [Hc Hws].
    rewrite RegExpFacts.append_cons, has_gap_cons, IH by done.
    destruct q; try done.
    rewrite bool_decide_eq_false_2; [done|]. by intros ->.
Qed.

(** What [replace_gaps] writes for a pending [>] begins with that [>]. *)
Lemma replace_gaps_pending_head ws s :
  ∃ t, replace_gaps (Some ws) s = String ">" t.
Proof.
  revert ws. induction s as [|c s IH]; intros ws; simpl.
  - by eexists.
  - destruct (Js.is_space c); [apply IH|].
    repeat case_bool_decide; by eexists.
Qed.

Lemma all_space_snoc ws c :
  all_space ws = true → Js.is_space c = true →
  all_space (ws +:+ String c "") = true.
Proof.
  intros Hws Hc. induction ws as [|c' ws IH]; simpl in *; [by rewrite Hc|].
  apply andb_true_iff in Hws as [-> Hws]. by apply IH.
Qed.

Lemma has_gap_spaces_end q ws : all_space ws = true → has_gap q ws = false.
Proof.
  revert q. induction ws as [|c ws IH]; intros q Hws; [done|].
  simpl in Hws. apply andb_true_iff in Hws as [Hc Hws].
  rewrite has_gap_cons, IH by done.
  destruct q; try done. rewrite bool_decide_eq_false_2; [done|]. by intros ->.
Qed.

Lemma has_gap_spaces_then_other q ws c s :
  all_space ws = true → Js.is_space c = false →
  c ≠ "<"%char → c ≠ ">"%char →
  has_gap q (ws +:+ String c s) = has_gap gap_none s.
Proof.
  intros Hws Hc Hlt Hgt. revert q.
  induction ws as [|c' ws IH]; intros q.
  - rewrite RegExpFacts.append_nil_l, has_gap_cons.
    assert (Hstep : gap_step q c = gap_none).
    { unfold gap_step. by rewrite bool_decide_eq_false_2, Hc. }
    rewrite Hstep. destruct q; try done.
    by rewrite bool_decide_eq_false_2.
  - simpl in Hws. apply andb_true_iff in Hws as [Hc' Hws].
    rewrite RegExpFacts.append_cons, has_gap_cons, (IH Hws).
    destruct q; try done. rewrite bool_decide_eq_false_2; [done|]. by intros ->.
Qed.

(** The output of [replace_gaps] holds no gap. *)
Lemma replace_gaps_no_gap pending s :
  match pending with Some ws => all_space ws = true | None => True end →
  has_gap gap_none (replace_gaps pending s) = false.
Proof.
  revert pending. induction s as [|c s IH]; intros [ws|] Hp;
    cbn [replace_gaps].
  - rewrite has_gap_after_gt. by apply has_gap_spaces_end.
  - done.
  - destruct (Js.is_space c) eqn:Hc.
    { apply IH. by apply all_space_snoc. }
    case_bool_decide as Hlt.
    { rewrite has_gap_after_gt, has_gap_cons.
      change (gap_step gap_open "<") with gap_none. by apply (IH None). }
    case_bool_decide as Hgt.
    + destruct (replace_gaps_pending_head "" s) as [t Ht].
      pose proof (IH (Some "") eq_refl) as Hrec. rewrite Ht in *.
      rewrite has_gap_after_gt in Hrec.
      change (String ">" ws +:+ String ">" t)
        with (String ">" (ws +:+ String ">" t)).
      by rewrite has_gap_after_gt, has_gap_spaces_then_gt.
    + change (String ">" ws +:+ String c (replace_gaps None s))
        with (String ">" (ws +:+ String c (replace_gaps None s))).
      rewrite has_gap_after_gt, has_gap_spaces_then_other by done.
      by apply (IH None).
  - case_bool_decide as Hgt.
    + destruct (replace_gaps_pending_head "" s) as [t Ht].
      pose proof (IH (Some "") eq_refl) as Hrec. by rewrite Ht in *.
    + rewrite has_gap_cons.
      assert (Hstep : gap_step gap_none c = gap_none).
      { unfold gap_step. rewrite bool_decide_eq_false_2 by done.
        by destruct (Js.is_space c). }
      rewrite Hstep. by apply (IH None).
Qed.

(** X12.  After [replace(/>\s+</g, '><')] no gap is left: the result
    nowhere holds a [>], then white space, then a [<]. *)
Theorem replace_gaps_leaves_no_gap (s pre ws post : string) :
  ws ≠ "" → all_space ws = true →
  replace_gaps None s ≠ pre +:+ ">" +:+ ws +:+ "<" +:+ post.
Proof.
  intros Hne Hws Heq.
  pose proof (replace_gaps_no_gap None s I) as Hno.
  rewrite Heq, has_gap_complete in Hno by done. discriminate Hno.
Qed.

Lemma replace_gaps_leaves_no_gap_witness :
  " " ≠ "" ∧ all_space " " = true ∧
  replace_gaps None "<b>x</b> <i>y</i>"
  ≠ "<b>x</b" +:+ ">" +:+ " " +:+ "<" +:+ "i>y</i>".
Proof.
  assert (H1 : " " ≠ "") by (intros Heq; discriminate Heq).
  assert (H2 : all_space " " = true) by reflexivity.
  split; [exact H1|]. split; [exact H2|].
  exact (replace_gaps_leaves_no_gap "<b>x</b> <i>y</i>" "<b>x</b" " " "i>y</i>"
           H1 H2).
Defined.


(* ===================================================================== *)
(** ** The Enter key *)
(* ===================================================================== *)

Lemma snoc_ne {A} (l : list A) x : l ++ [x] ≠ l.
Proof.
  intros Heq. apply (f_equal length) in Heq.
  rewrite length_app in Heq. simpl in Heq. lia.
Qed.

(** X13.  A key in the input box sends exactly when it is Enter, Shift is
    held if and only if a composition is in progress, the trimmed text is
    not empty and the channel is live.  So a plain Enter never submits a
    text that is being composed, and Shift+Enter outside a composition
    never submits. *)
Theorem enter_sends_by_composition (key : string) (shiftKey : bool) (w : world) :
  sent (browser (human_input_keydown key shiftKey w)) ≠ sent (browser w) ↔
  key = "Enter" ∧ shiftKey = isComposing (this w) ∧
  Js.trim (human_input (page w)) ≠ "" ∧ isConnected (this w) = true.
Proof.
  assert (Hsend :
    sent (browser (sendHumanInput w)) ≠ sent (browser w) ↔
    Js.trim (human_input (page w)) ≠ "" ∧ isConnected (this w) = true).
  { unfold sendHumanInput.
    destruct (Js.truthy (Js.trim (human_input (page w)))) eqn:Ht;
      [apply truthy_nonempty in Ht | apply truthy_false in Ht];
      destruct (isConnected (this w)); simpl;
      (split; [intros Hs | intros [Hne Hc]]); try done.
    all: first [apply snoc_ne | by split | by destruct Hs]. }
  unfold human_input_keydown.
  case_bool_decide as Hk; [|split; [done | by intros [? _]]].
  destruct (isComposing (this w)), shiftKey; simpl; rewrite ?Hsend.
  all: split; [intros H | intros (_ & Hs & H)]; try done.
  all: try (destruct H; done).
Qed.
